(** * simple-monopoly: a shallow embedding of [banco.py]

    The Python classes [Comportamento], [Jogador], [Propriedade],
    [Tabuleiro] and [Jogo] are embedded as records, their methods as
    functions in a small state-and-exception monad.

    - Python [int] is [Z]; [bool] is [bool]; a value that may be an [int]
      or a [bool] (the result of [decide_compra]) is a [valor].
    - [Jogador] objects are mutated in place and are shared between the
      player list of the game and the [dono] field of the properties, so
      they live in a store addressed by references ([ref]); every
      reference denotes an object (Python has no dangling reference).
    - The process-wide pseudo-random generator is a stream [fonte] of raw
      draws with a cursor in the store; [randint(1,6)] and
      [getrandbits(1)] each consume one draw.
    - Each board slot holds its own [Propriedade] object and a game holds
      its own [Tabuleiro], as [setup_jogo] builds them, so the board is
      passed by value and written back. *)

From Stdlib Require Import ZArith Lia.
From stdpp Require Import base decidable functions relations list gmap strings.

Local Open Scope Z_scope.

(** ** Data model *)

(** [class Comportamento]: four independent boolean traits. *)
Record Comportamento := {
  impulsivo : bool;
  exigente : bool;
  cauteloso : bool;
  aleatorio : bool
}.

(** A reference to a [Jogador] object. *)
Definition ref := nat.

(** [class Jogador]. *)
Module Jogador.
Record t := {
  nome : string;
  saldo : Z;
  comportamento : Comportamento;
  posicao_tabuleiro : Z;
  falido : bool
}.

Definition com_saldo (f : Z → Z) (j : t) : t :=
  {| nome := nome j; saldo := f (saldo j); comportamento := comportamento j;
     posicao_tabuleiro := posicao_tabuleiro j; falido := falido j |}.

Definition com_posicao_tabuleiro (f : Z → Z) (j : t) : t :=
  {| nome := nome j; saldo := saldo j; comportamento := comportamento j;
     posicao_tabuleiro := f (posicao_tabuleiro j); falido := falido j |}.

Definition com_falido (b : bool) (j : t) : t :=
  {| nome := nome j; saldo := saldo j; comportamento := comportamento j;
     posicao_tabuleiro := posicao_tabuleiro j; falido := b |}.
End Jogador.

(** [class Propriedade]: [dono] is [None] or a reference to a player. *)
Module Propriedade.
Record t := {
  nome : string;
  custo_venda : Z;
  valor_aluguel : Z;
  dono : option ref;
  posicao_tabuleiro : option Z
}.

Definition com_dono (d : option ref) (p : t) : t :=
  {| nome := nome p; custo_venda := custo_venda p;
     valor_aluguel := valor_aluguel p; dono := d;
     posicao_tabuleiro := posicao_tabuleiro p |}.
End Propriedade.

(** [class Tabuleiro]. *)
Record Tabuleiro := { propriedades : list Propriedade.t }.

(** [class Jogo]: [reset] stores [None] in [jogadores] and [tabuleiro]. *)
Record Jogo := {
  jogadores : option (list ref);
  tabuleiro : option Tabuleiro;
  rodada : Z;
  jogadores_falidos : Z
}.

Global Instance Comportamento_eq_dec : EqDecision Comportamento.
Proof. solve_decision. Defined.

Global Instance Jogador_eq_dec : EqDecision Jogador.t.
Proof. solve_decision. Defined.

(** A Python value that is a [bool] or an [int]. *)
Inductive valor :=
  | VBool (b : bool)
  | VInt (n : Z).

(** Truth value of a [valor] in an [if]. *)
Definition verdadeiro (v : valor) : bool :=
  match v with
  | VBool b => b
  | VInt n => negb (n =? 0)
  end.

(** [isinstance(v, bool)]. *)
Definition e_bool (v : valor) : bool :=
  match v with
  | VBool _ => true
  | VInt _ => false
  end.

(** ** Store, exceptions and the monad *)

(** The mutable store: the player objects and the number of draws taken
    from the random source so far. *)
Record Mundo := {
  objetos : ref → Jogador.t;
  sorteios : nat
}.

Inductive excecao := IndexError | TypeError | AttributeError.

(** The outcome of a run: a value and the new store, a raised exception,
    or the fuel of the [while] loop exhausted. *)
Inductive saida (A : Type) :=
  | Ret (a : A) (w : Mundo)
  | Levanta (e : excecao)
  | SemFolego.
Arguments Ret {A} a w.
Arguments Levanta {A} e.
Arguments SemFolego {A}.

Definition M (A : Type) : Type := Mundo → saida A.

Global Instance M_ret : MRet M := fun A (a : A) w => Ret a w.

Global Instance M_bind : MBind M := fun A B (k : A → M B) (m : M A) w =>
  match m w with
  | Ret a w' => k a w'
  | Levanta e => Levanta e
  | SemFolego => SemFolego
  end.

Global Instance M_throw : MThrow excecao M := fun A e _ => Levanta e.

(** Read the object behind a reference. *)
Definition le (r : ref) : M Jogador.t := fun w => Ret (objetos w r) w.

(** Mutate the object behind a reference in place. *)
Definition muda (r : ref) (f : Jogador.t → Jogador.t) : M unit :=
  fun w => Ret tt {| objetos := alter f r (objetos w); sorteios := sorteios w |}.

(** Python list indexing [l[i]]: a negative index counts from the end,
    an index outside [-len, len) raises [IndexError]. *)
Definition posicao_lista {A} (l : list A) (i : Z) : option nat :=
  let n := Z.of_nat (length l) in
  if (0 <=? i) && (i <? n) then Some (Z.to_nat i)
  else if (- n <=? i) && (i <? 0) then Some (Z.to_nat (n + i))
  else None.

Definition indice {A} (l : list A) (i : Z) : M (nat * A) :=
  match posicao_lista l i with
  | Some k =>
      match l !! k with
      | Some x => mret (k, x)
      | None => mthrow IndexError
      end
  | None => mthrow IndexError
  end.

(** An entry of the data set of properties: a dict with the keys
    ["nome"], ["custo_venda"] and ["valor_aluguel"]. *)
Module Dados.
Record t := {
  nome : string;
  custo_venda : Z;
  valor_aluguel : Z
}.
End Dados.

Section Banco.

(** The raw draws of the pseudo-random generator. *)
Variable fonte : nat → nat.

Definition sorteia : M nat :=
  fun w => Ret (fonte (sorteios w))
               {| objetos := objetos w; sorteios := S (sorteios w) |}.

(** [random.randint(1, 6)]. *)
Definition randint_1_6 : M Z :=
  x ← sorteia; mret (1 + Z.of_nat (x mod 6)).

(** [random.getrandbits(1)]: the [int] 0 or 1. *)
Definition getrandbits_1 : M valor :=
  x ← sorteia; mret (VInt (Z.of_nat (x mod 2))).

(** *** [Comportamento.decide_compra] *)
Definition decide_compra (self : Comportamento)
    (custo_propriedade valor_aluguel saldo : Z) : M valor :=
  if impulsivo self then mret (VBool true)
  else if exigente self && (valor_aluguel >=? 50) then mret (VBool true)
  else if cauteloso self && (saldo - custo_propriedade >=? 80)
  then mret (VBool true)
  else if aleatorio self then getrandbits_1
  else mret (VBool false).

(** *** [Jogador.joga_dado] *)
Definition joga_dado (self : ref) : M Z :=
  valor ← randint_1_6; mret valor.

(** The move of [executa_jogada] (the first [if]): advance by the roll,
    wrapping past slot 20 with a bonus of 100. *)
Definition avanca (qtd_posicoes_andar : Z) (eu : Jogador.t) : Jogador.t :=
  if Jogador.posicao_tabuleiro eu + qtd_posicoes_andar >? 20 then
    Jogador.com_saldo (fun s => s + 100)
      (Jogador.com_posicao_tabuleiro
         (fun p => p + qtd_posicoes_andar - 20) eu)
  else
    Jogador.com_posicao_tabuleiro (fun p => p + qtd_posicoes_andar) eu.

(** [tabuleiro.propriedades], on a [tabuleiro] that may be [None]. *)
Definition propriedades_de (tabuleiro : option Tabuleiro)
    : M (list Propriedade.t) :=
  match tabuleiro with
  | Some t => mret (propriedades t)
  | None => mthrow AttributeError
  end.

(** *** [Jogador.executa_jogada]
    Returns the board, whose landed-on property it may have mutated. *)
Definition executa_jogada (self : ref) (tabuleiro : option Tabuleiro)
    : M Tabuleiro :=
  qtd_posicoes_andar ← joga_dado self;
  muda self (avanca qtd_posicoes_andar) ;;
  eu ← le self;
  props ← propriedades_de tabuleiro;
  '(k, propriedade) ← indice props (Jogador.posicao_tabuleiro eu - 1);
  props' ←
    match Propriedade.dono propriedade with
    | None =>
        compra ← decide_compra (Jogador.comportamento eu)
                   (Propriedade.custo_venda propriedade)
                   (Propriedade.valor_aluguel propriedade)
                   (Jogador.saldo eu);
        if verdadeiro compra then
          muda self (Jogador.com_saldo
                       (fun s => s - Propriedade.custo_venda propriedade)) ;;
          mret (<[k := Propriedade.com_dono (Some self) propriedade]> props)
        else mret props
    | Some _ =>
        muda self (Jogador.com_saldo
                     (fun s => s - Propriedade.valor_aluguel propriedade)) ;;
        mret props
    end;
  eu ← le self;
  (if Jogador.saldo eu <? 0 then muda self (Jogador.com_falido true)
   else mret tt) ;;
  mret {| propriedades := props' |}.

(** *** [Jogador.retorna_comportamento]: a label, or Python's [None]. *)
Definition retorna_comportamento (eu : Jogador.t) : option string :=
  if impulsivo (Jogador.comportamento eu) then Some "impulsivo"%string
  else if exigente (Jogador.comportamento eu) then Some "exigente"%string
  else if cauteloso (Jogador.comportamento eu) then Some "cauteloso"%string
  else if aleatorio (Jogador.comportamento eu) then Some "aleatorio"%string
  else None.

(** [propriedade.dono == jogador]: [None] equals no player; two players
    are compared by the [__eq__] that [@dataclass] generates, field by
    field, not by identity. *)
Definition dono_igual (objs : ref → Jogador.t) (dono : option ref)
    (jogador : ref) : bool :=
  match dono with
  | None => false
  | Some d => bool_decide (objs d = objs jogador)
  end.

(** *** [Tabuleiro.remove_jogador] *)
Definition remove_jogador_em (objs : ref → Jogador.t) (self : Tabuleiro)
    (jogador : ref) : Tabuleiro :=
  {| propriedades :=
       (fun propriedade =>
          if dono_igual objs (Propriedade.dono propriedade) jogador
          then Propriedade.com_dono None propriedade
          else propriedade) <$> propriedades self |}.

Definition remove_jogador (self : option Tabuleiro) (jogador : ref)
    : M Tabuleiro :=
  match self with
  | Some t => fun w => Ret (remove_jogador_em (objetos w) t jogador) w
  | None => mthrow AttributeError
  end.

(** *** [Jogo.play] *)

(** How the body of the [for] loop ends: falls through or [continue]
    ([Segue]), or [break] ([Para]). *)
Inductive sinal := Segue | Para.

Definition com_tabuleiro (t : option Tabuleiro) (g : Jogo) : Jogo :=
  {| jogadores := jogadores g; tabuleiro := t; rodada := rodada g;
     jogadores_falidos := jogadores_falidos g |}.

Definition com_jogadores_falidos (n : Z) (g : Jogo) : Jogo :=
  {| jogadores := jogadores g; tabuleiro := tabuleiro g; rodada := rodada g;
     jogadores_falidos := n |}.

Definition com_rodada (n : Z) (g : Jogo) : Jogo :=
  {| jogadores := jogadores g; tabuleiro := tabuleiro g; rodada := n;
     jogadores_falidos := jogadores_falidos g |}.

(** The body of [for jogador in self.jogadores]. *)
Definition play_corpo (self : Jogo) (jogador : ref) : M (Jogo * sinal) :=
  eu ← le jogador;
  if Jogador.falido eu then mret (self, Segue)
  else
    t ← executa_jogada jogador (tabuleiro self);
    let self := com_tabuleiro (Some t) self in
    eu ← le jogador;
    self ←
      (if Jogador.falido eu then
         t ← remove_jogador (tabuleiro self) jogador;
         mret (com_jogadores_falidos (jogadores_falidos self + 1)
                 (com_tabuleiro (Some t) self))
       else mret self);
    if jogadores_falidos self >? 2 then mret (self, Para)
    else mret (self, Segue).

(** [for jogador in self.jogadores: ...] over the players left. *)
Fixpoint play_for (self : Jogo) (restantes : list ref) : M Jogo :=
  match restantes with
  | [] => mret self
  | jogador :: restantes =>
      '(self, s) ← play_corpo self jogador;
      match s with
      | Para => mret self
      | Segue => play_for self restantes
      end
  end.

(** Iterating over [self.jogadores], which may be [None]. *)
Definition itera (l : option (list ref)) : M (list ref) :=
  match l with
  | Some js => mret js
  | None => mthrow TypeError
  end.

(** One round: the [for] loop, then [self.rodada += 1]. *)
Definition play_rodada (self : Jogo) : M Jogo :=
  js ← itera (jogadores self);
  self ← play_for self js;
  mret (com_rodada (rodada self + 1) self).

(** The loop condition [self.rodada < 1000 and self.jogadores_falidos < 3]. *)
Definition em_jogo (self : Jogo) : bool :=
  (rodada self <? 1000) && (jogadores_falidos self <? 3).

(** The [while] loop, with at most [folego] rounds. *)
Fixpoint play_while (folego : nat) (self : Jogo) : M Jogo :=
  if em_jogo self then
    match folego with
    | O => fun _ => SemFolego
    | S folego =>
        self ← play_rodada self;
        play_while folego self
    end
  else mret self.

(** The winner loop: [vencedor] starts as [None]; a player object is
    always true in [if not vencedor]. *)
Fixpoint play_vencedor (objs : ref → Jogador.t) (restantes : list ref)
    (vencedor : option ref) : option ref :=
  match restantes with
  | [] => vencedor
  | jogador :: restantes =>
      play_vencedor objs restantes
        (match vencedor with
         | None => Some jogador
         | Some v =>
             if Jogador.saldo (objs jogador) >? Jogador.saldo (objs v)
             then Some jogador
             else Some v
         end)
  end.

(** *** [Jogo.reset] *)
Definition reset (self : Jogo) : Jogo :=
  {| jogadores := None; tabuleiro := None; rodada := 0;
     jogadores_falidos := 0 |}.

(** The rounds that [play_while] can still run from [self]. *)
Definition folego_de (self : Jogo) : nat := Z.to_nat (1000 - rodada self).

(** The dict literal of [play], turned into a [Counter] (which keeps
    the entries as they are, zero counts included). *)
Definition resultado_de (time_out turnos : Z)
    (comportamento_vencedor : option string) : gmap (option string) Z :=
  <[comportamento_vencedor := 1]>
    (<[Some "turnos"%string := turnos]>
       (<[Some "timeout"%string := time_out]> ∅)).

(** [play] returns the [Counter] and leaves the game reset. *)
Definition play (self : Jogo) : M (gmap (option string) Z * Jogo) :=
  self ← play_while (folego_de self) self;
  let time_out :=
    if (rodada self =? 1000) && (jogadores_falidos self <? 3) then 1 else 0 in
  js ← itera (jogadores self);
  vencedor ← (fun w => Ret (play_vencedor (objetos w) js None) w);
  match vencedor with
  | None => mthrow AttributeError
  | Some v =>
      eu ← le v;
      let comportamento_vencedor := retorna_comportamento eu in
      mret (resultado_de time_out (rodada self) comportamento_vencedor,
            reset self)
  end.

(** *** [setup_jogo], [inicia_jogo] and the batch of [__main__] *)

(** The data set [propriedades.lista] of the module [Dados], which is
    not part of the sources: a list of dicts with the keys ["nome"],
    ["custo_venda"] and ["valor_aluguel"]. *)
Variable lista : list Dados.t.

(** The fields of [Jogador(nome, saldo, comportamento)]: the slot and
    the flag take their defaults. *)
Definition Jogador_init (nome : string) (saldo : Z)
    (comportamento : Comportamento) : Jogador.t :=
  {| Jogador.nome := nome; Jogador.saldo := saldo;
     Jogador.comportamento := comportamento;
     Jogador.posicao_tabuleiro := 0; Jogador.falido := false |}.

(** [Jogador(nome, saldo, comportamento)]: a new object, at the address
    [r], which no live object uses. *)
Definition novo_jogador (r : ref) (nome : string) (saldo : Z)
    (comportamento : Comportamento) : M ref :=
  fun w =>
    Ret r {| objetos := <[r := Jogador_init nome saldo comportamento]>
                          (objetos w);
             sorteios := sorteios w |}.

(** [x[i], x[j] = x[j], x[i]]. *)
Definition troca {A} (x : list A) (i j : nat) : M (list A) :=
  match x !! j, x !! i with
  | Some xj, Some xi => mret (<[j := xi]> (<[i := xj]> x))
  | _, _ => mthrow IndexError
  end.

(** [random.shuffle(x)], from index [i] down to 1: each index draws a
    [j] in [0, i] and swaps [x[i]] with [x[j]]. *)
Fixpoint shuffle_desde {A} (i : nat) (x : list A) : M (list A) :=
  match i with
  | O => mret x
  | S i' =>
      d ← sorteia;
      x ← troca x i (d mod (S i));
      shuffle_desde i' x
  end.

Definition shuffle {A} (x : list A) : M (list A) :=
  shuffle_desde (length x - 1) x.

(** [Comportamento(...)] with the keyword arguments given, the others
    at their default [False]. *)
Definition Comportamento_impulsivo : Comportamento :=
  {| impulsivo := true; exigente := false; cauteloso := false;
     aleatorio := false |}.
Definition Comportamento_exigente : Comportamento :=
  {| impulsivo := false; exigente := true; cauteloso := false;
     aleatorio := false |}.
Definition Comportamento_cauteloso : Comportamento :=
  {| impulsivo := false; exigente := false; cauteloso := true;
     aleatorio := false |}.
Definition Comportamento_aleatorio : Comportamento :=
  {| impulsivo := false; exigente := false; cauteloso := false;
     aleatorio := true |}.

(** [Propriedade(nome=..., custo_venda=..., valor_aluguel=...)]. *)
Definition nova_propriedade (prop : Dados.t) : Propriedade.t :=
  {| Propriedade.nome := Dados.nome prop;
     Propriedade.custo_venda := Dados.custo_venda prop;
     Propriedade.valor_aluguel := Dados.valor_aluguel prop;
     Propriedade.dono := None;
     Propriedade.posicao_tabuleiro := None |}.

(** [setup_jogo]; the four players are created at the addresses
    [livre], ..., [livre + 3]. *)
Definition setup_jogo (livre : ref) : M Jogo :=
  j1 ← novo_jogador livre "Jogador1" 300 Comportamento_impulsivo;
  j2 ← novo_jogador (livre + 1)%nat "Jogador2" 300 Comportamento_exigente;
  j3 ← novo_jogador (livre + 2)%nat "Jogador3" 300 Comportamento_cauteloso;
  j4 ← novo_jogador (livre + 3)%nat "Jogador4" 300 Comportamento_aleatorio;
  lista_jogadores ← shuffle [j1; j2; j3; j4];
  let lista_propriedades := nova_propriedade <$> lista in
  mret {| jogadores := Some lista_jogadores;
          tabuleiro := Some {| propriedades := lista_propriedades |};
          rodada := 0; jogadores_falidos := 0 |}.

(** [inicia_jogo]. *)
Definition inicia_jogo (jogo : Jogo) : M (gmap (option string) Z * Jogo) :=
  play jogo.

(** [Counter.__iadd__]: add the counts of [other], then keep only the
    entries with a positive count. *)
Definition Counter_iadd (self other : gmap (option string) Z)
    : gmap (option string) Z :=
  filter (λ kv, 0 < kv.2) (union_with (λ a b, Some (a + b)) self other).

(** The dict [resultado_final] of [__main__] as it starts. *)
Definition resultado_final : gmap (option string) Z :=
  <[Some "aleatorio"%string := 0]>
    (<[Some "cauteloso"%string := 0]>
       (<[Some "exigente"%string := 0]>
          (<[Some "impulsivo"%string := 0]>
             (<[Some "turnos"%string := 0]>
                (<[Some "timeout"%string := 0]> ∅))))).

(** The loop of [__main__], with [turnos] games still to play; the
    players of the next game are created from the address [livre] on. *)
Fixpoint principal_jogos (turnos : nat) (livre : ref)
    (resultado_final_counter : gmap (option string) Z)
    : M (gmap (option string) Z) :=
  match turnos with
  | O => mret resultado_final_counter
  | S turnos =>
      jogo ← setup_jogo livre;
      '(resultado, _) ← inicia_jogo jogo;
      principal_jogos turnos (livre + 4)%nat
        (Counter_iadd resultado_final_counter resultado)
  end.

(** [__main__] up to [resultado_final.update(...)]: the totals of
    [turnos] games, from which the script derives the percentages it
    prints. *)
Definition principal (turnos : nat) (livre : ref)
    : M (gmap (option string) Z) :=
  resultado_final_counter ← principal_jogos turnos livre resultado_final;
  mret (resultado_final_counter ∪ resultado_final).

End Banco.

(** ** Notions used in the statements *)

(** The roll that [joga_dado] returns in store [w]. *)
Definition dado (fonte : nat → nat) (w : Mundo) : Z :=
  1 + Z.of_nat (fonte (sorteios w) mod 6).

(** The bit that [getrandbits(1)] returns in store [w]. *)
Definition moeda (fonte : nat → nat) (w : Mundo) : Z :=
  Z.of_nat (fonte (sorteios w) mod 2).

(** The store after one draw. *)
Definition sorteado (w : Mundo) : Mundo :=
  {| objetos := objetos w; sorteios := S (sorteios w) |}.

(** The player [self] once moved by the roll of store [w]. *)
Definition pousa (fonte : nat → nat) (self : ref) (w : Mundo) : Jogador.t :=
  avanca (dado fonte w) (objetos w self).

(** The store in which [executa_jogada] consults the strategy: the die
    is cast and the player has moved. *)
Definition movido (fonte : nat → nat) (self : ref) (w : Mundo) : Mundo :=
  {| objetos := alter (avanca (dado fonte w)) self (objetos w);
     sorteios := S (sorteios w) |}.

(** The last [if] of [executa_jogada]. *)
Definition fecha (eu : Jogador.t) : Jogador.t :=
  if Jogador.saldo eu <? 0 then Jogador.com_falido true eu else eu.

(** The decision rule as the specification words it: the first trait
    that is set decides alone. *)
Definition decide_compra_espec (c : Comportamento)
    (custo_propriedade valor_aluguel saldo : Z) (cara : bool) : bool :=
  if impulsivo c then true
  else if exigente c then valor_aluguel >=? 50
  else if cauteloso c then saldo - custo_propriedade >=? 80
  else if aleatorio c then cara
  else false.

(** At most one trait is set. *)
Definition um_traco (c : Comportamento) : bool :=
  (Nat.b2n (impulsivo c) + Nat.b2n (exigente c) + Nat.b2n (cauteloso c)
   + Nat.b2n (aleatorio c) <=? 1)%nat.

(** [m] never runs out of fuel. *)
Definition termina {A} (m : M A) : Prop := ∀ w, m w ≠ SemFolego.

(** No slot of the board of [g] is owned by [r]. *)
Definition sem_posses (g : Jogo) (r : ref) : Prop :=
  ∀ t p, tabuleiro g = Some t → p ∈ propriedades t →
         Propriedade.dono p ≠ Some r.

(** One step of the game loop from a state (game and store): one pass
    through the body of the [for] loop, for any player, or the
    increment of [rodada] that ends a round. *)
Inductive passo (fonte : nat → nat) : Jogo * Mundo → Jogo * Mundo → Prop :=
  | passo_corpo g w jogador g' s w' :
      play_corpo fonte g jogador w = Ret (g', s) w' →
      passo fonte (g, w) (g', w')
  | passo_rodada g w :
      passo fonte (g, w) (com_rodada (rodada g + 1) g, w).

(** The fixed part of a board: name, price, rent and slot number of
    each property, in order. *)
Definition planta (t : Tabuleiro) : list (string * Z * Z * option Z) :=
  (λ p, (Propriedade.nome p, Propriedade.custo_venda p,
         Propriedade.valor_aluguel p, Propriedade.posicao_tabuleiro p))
    <$> propriedades t.

(** The flag of [r] agrees with its balance. *)
Definition coerente (w : Mundo) (r : ref) : Prop :=
  Jogador.falido (objetos w r) = true ↔ Jogador.saldo (objetos w r) < 0.

(** The number of bankrupt players among [js]. *)
Fixpoint conta_falidos (objs : ref → Jogador.t) (js : list ref) : Z :=
  match js with
  | [] => 0
  | j :: js =>
      (if Jogador.falido (objs j) then 1 else 0) + conta_falidos objs js
  end.

(** The game can be played: it has players and a board of at least 20
    slots, and every player stands on a slot in 0..20. *)
Definition pronto (g : Jogo) (w : Mundo) : Prop :=
  ∃ js t,
    jogadores g = Some js
    ∧ tabuleiro g = Some t
    ∧ (20 ≤ length (propriedades t))%nat
    ∧ ∀ j, j ∈ js → 0 ≤ Jogador.posicao_tabuleiro (objetos w j) ≤ 20.

(** The store after [n] more draws. *)
Definition sorteados (n : nat) (w : Mundo) : Mundo :=
  {| objetos := objetos w; sorteios := (sorteios w + n)%nat |}.

(** The four players as [setup_jogo] creates them from [livre] on. *)
Definition recem_criados (livre : ref) (objs : ref → Jogador.t) : Prop :=
  objs livre = Jogador_init "Jogador1" 300 Comportamento_impulsivo
  ∧ objs (livre + 1)%nat
    = Jogador_init "Jogador2" 300 Comportamento_exigente
  ∧ objs (livre + 2)%nat
    = Jogador_init "Jogador3" 300 Comportamento_cauteloso
  ∧ objs (livre + 3)%nat
    = Jogador_init "Jogador4" 300 Comportamento_aleatorio.

(** The four labels of [retorna_comportamento]. *)
Definition rotulos : list string :=
  ["impulsivo"; "exigente"; "cauteloso"; "aleatorio"]%string.

(** [c[k]] on a [Counter]: a missing key counts 0. *)
Definition contagem (c : gmap (option string) Z) (k : option string) : Z :=
  default 0 (c !! k).

(** The six keys of the totals. *)
Definition chaves : gset (option string) :=
  {[ Some "timeout"; Some "turnos"; Some "impulsivo"; Some "exigente";
     Some "cauteloso"; Some "aleatorio" ]}%string.

(** What the counter of [__main__] holds after [m] games. *)
Definition parcial (c : gmap (option string) Z) (m : Z) : Prop :=
  (∀ k, 0 ≤ contagem c k)
  ∧ dom c ⊆ chaves
  ∧ contagem c (Some "impulsivo"%string)
    + contagem c (Some "exigente"%string)
    + contagem c (Some "cauteloso"%string)
    + contagem c (Some "aleatorio"%string) = m
  ∧ contagem c (Some "timeout"%string) ≤ m
  ∧ m ≤ contagem c (Some "turnos"%string) ≤ 1000 * m.

(** ** A small game to run *)
Module Exemplo.

Definition traco (i e c a : bool) : Comportamento :=
  {| impulsivo := i; exigente := e; cauteloso := c; aleatorio := a |}.

Definition jogador (n : string) (s p : Z) (c : Comportamento) : Jogador.t :=
  {| Jogador.nome := n; Jogador.saldo := s; Jogador.comportamento := c;
     Jogador.posicao_tabuleiro := p; Jogador.falido := false |}.

(** The four players of [setup_jogo], each with balance [s], on slot [p]. *)
Definition objs (s p : Z) : ref → Jogador.t :=
  fun r =>
    match r with
    | 0%nat => jogador "Jogador1" s p (traco true false false false)
    | 1%nat => jogador "Jogador2" s p (traco false true false false)
    | 2%nat => jogador "Jogador3" s p (traco false false true false)
    | _ => jogador "Jogador4" s p (traco false false false true)
    end.

Definition propriedade (c a : Z) (d : option ref) : Propriedade.t :=
  {| Propriedade.nome := "Rua"; Propriedade.custo_venda := c;
     Propriedade.valor_aluguel := a; Propriedade.dono := d;
     Propriedade.posicao_tabuleiro := None |}.

(** Twenty slots of price [c] and rent [a], all owned by [d]. *)
Definition tab (c a : Z) (d : option ref) : Tabuleiro :=
  {| propriedades := replicate 20 (propriedade c a d) |}.

Definition jogo (t : Tabuleiro) : Jogo :=
  {| jogadores := Some [0; 1; 2; 3]%nat; tabuleiro := Some t;
     rodada := 0; jogadores_falidos := 0 |}.

(** The store with [n] draws already taken. *)
Definition mundo (s p : Z) (n : nat) : Mundo :=
  {| objetos := objs s p; sorteios := n |}.

(** Draws whose rolls are 4, 3, 2, 1, 6, 5, ... and whose bits are
    1, 0, 1, 0, ... *)
Definition fonte (n : nat) : nat := (5 * n + 3)%nat.

End Exemplo.

(** A data set of twenty properties. *)
Module ExemploDados.

Definition rua : Dados.t :=
  {| Dados.nome := "Rua"; Dados.custo_venda := 100;
     Dados.valor_aluguel := 60 |}.

Definition lista : list Dados.t := replicate 20 rua.

End ExemploDados.

(** ** The monad *)

Lemma bind_Ret_inv {A B} (m : M A) (k : A → M B) w b w' :
  (m ≫= k) w = Ret b w' → ∃ a w1, m w = Ret a w1 ∧ k a w1 = Ret b w'.
Proof. unfold mbind, M_bind. destruct (m w); naive_solver. Qed.

Lemma bind_SemFolego_inv {A B} (m : M A) (k : A → M B) w :
  (m ≫= k) w = SemFolego →
  m w = SemFolego ∨ ∃ a w1, m w = Ret a w1 ∧ k a w1 = SemFolego.
Proof. unfold mbind, M_bind. destruct (m w); naive_solver. Qed.

Lemma alter_mesmo (f : Jogador.t → Jogador.t) (r : ref) (h : ref → Jogador.t) :
  alter f r h r = f (h r).
Proof. apply fn_lookup_alter. Qed.

Lemma alter_outro (f : Jogador.t → Jogador.t) (r r' : ref)
    (h : ref → Jogador.t) :
  r' ≠ r → alter f r h r' = h r'.
Proof. intros. apply fn_lookup_alter_ne. congruence. Qed.

Lemma dado_1_6 fonte w : 1 ≤ dado fonte w ≤ 6.
Proof.
  unfold dado. pose proof (Nat.mod_upper_bound (fonte (sorteios w)) 6). lia.
Qed.

Lemma moeda_0_1 fonte w : moeda fonte w = 0 ∨ moeda fonte w = 1.
Proof.
  unfold moeda. pose proof (Nat.mod_upper_bound (fonte (sorteios w)) 2). lia.
Qed.

(** ** [Comportamento.decide_compra] *)

(** [decide_compra] raises nothing and draws at most once: it returns a
    [bool] in the store it got, or the drawn bit after one draw. *)
Lemma decide_compra_Ret fonte c custo aluguel saldo w :
  ∃ v, decide_compra fonte c custo aluguel saldo w = Ret v w ∧ e_bool v = true
     ∨ decide_compra fonte c custo aluguel saldo w = Ret v (sorteado w)
       ∧ v = VInt (moeda fonte w).
Proof.
  unfold decide_compra.
  destruct (impulsivo c); [eexists; left; split; reflexivity|].
  destruct (exigente c && (aluguel >=? 50));
    [eexists; left; split; reflexivity|].
  destruct (cauteloso c && (saldo - custo >=? 80));
    [eexists; left; split; reflexivity|].
  destruct (aleatorio c); [|eexists; left; split; reflexivity].
  eexists. right. split; reflexivity.
Qed.

Lemma exigente_falha c aluguel :
  exigente c = false ∨ aluguel < 50 → exigente c && (aluguel >=? 50) = false.
Proof.
  intros [->| H]; [done|]. apply andb_false_iff. right.
  rewrite Z.geb_leb. apply Z.leb_gt. lia.
Qed.

Lemma cauteloso_falha c saldo custo :
  cauteloso c = false ∨ saldo - custo < 80 →
  cauteloso c && (saldo - custo >=? 80) = false.
Proof.
  intros [->| H]; [done|]. apply andb_false_iff. right.
  rewrite Z.geb_leb. apply Z.leb_gt. lia.
Qed.

(** The cautious rule decides when no earlier rule has matched. *)
Lemma decide_compra_cauteloso fonte c custo aluguel saldo w :
  impulsivo c = false → exigente c = false ∨ aluguel < 50 →
  cauteloso c = true → 80 ≤ saldo - custo →
  decide_compra fonte c custo aluguel saldo w = Ret (VBool true) w.
Proof.
  unfold decide_compra. intros -> He -> H.
  rewrite (exigente_falha _ _ He). simpl.
  by replace (saldo - custo >=? 80) with true
    by (symmetry; rewrite Z.geb_leb; apply Z.leb_le; lia).
Qed.

(** C3, as stated, fails: a strategy that is both demanding and cautious
    buys a property of rent 10 (below 50) when the reserve allows it,
    where the rule as specified lets the demanding trait alone decide
    and refuses. *)
Lemma decide_compra_exigente_cauteloso :
  let c := Exemplo.traco false true true false in
  decide_compra Exemplo.fonte c 100 10 300 (Exemplo.mundo 300 0 0)
    = Ret (VBool true) (Exemplo.mundo 300 0 0)
  ∧ decide_compra_espec c 100 10 300 true = false
  ∧ decide_compra_espec c 100 10 300 false = false.
Proof. repeat split. Qed.

(** C3, as amended: the rules are tried in the order impulsive,
    demanding, cautious, random-choice, and the first rule whose trait is
    set and whose condition holds decides; a demanding strategy facing a
    rent below 50, or a cautious one short of the reserve of 80, goes on
    to the later rules. The random-choice rule returns the bit of one
    draw; without any match the answer is [False]. With at most one trait
    set this is the rule as the specification words it. *)
Theorem decide_compra_regras fonte c custo aluguel saldo w :
  (impulsivo c = true →
     decide_compra fonte c custo aluguel saldo w = Ret (VBool true) w)
  ∧ (impulsivo c = false → exigente c = true → 50 ≤ aluguel →
     decide_compra fonte c custo aluguel saldo w = Ret (VBool true) w)
  ∧ (impulsivo c = false → exigente c = false ∨ aluguel < 50 →
     cauteloso c = true → 80 ≤ saldo - custo →
     decide_compra fonte c custo aluguel saldo w = Ret (VBool true) w)
  ∧ (impulsivo c = false → exigente c = false ∨ aluguel < 50 →
     cauteloso c = false ∨ saldo - custo < 80 → aleatorio c = true →
     decide_compra fonte c custo aluguel saldo w
       = Ret (VInt (moeda fonte w)) (sorteado w))
  ∧ (impulsivo c = false → exigente c = false ∨ aluguel < 50 →
     cauteloso c = false ∨ saldo - custo < 80 → aleatorio c = false →
     decide_compra fonte c custo aluguel saldo w = Ret (VBool false) w)
  ∧ (um_traco c = true →
     ∃ v w', decide_compra fonte c custo aluguel saldo w = Ret v w'
       ∧ verdadeiro v
         = decide_compra_espec c custo aluguel saldo
             (negb (moeda fonte w =? 0))).
Proof.
  unfold decide_compra. repeat split.
  - by intros ->.
  - intros -> -> H. simpl.
    by replace (aluguel >=? 50) with true
      by (symmetry; rewrite Z.geb_leb; apply Z.leb_le; lia).
  - apply decide_compra_cauteloso.
  - intros -> He Hc ->.
    by rewrite (exigente_falha _ _ He), (cauteloso_falha _ _ _ Hc).
  - intros -> He Hc ->.
    by rewrite (exigente_falha _ _ He), (cauteloso_falha _ _ _ Hc).
  - unfold um_traco, decide_compra_espec.
    destruct (impulsivo c), (exigente c), (cauteloso c), (aleatorio c);
      simpl; try discriminate; intros _;
      repeat match goal with
             | |- context [?a >=? ?b] => destruct (a >=? b)
             end; by eexists _, _.
Qed.

(** The amended rule on the strategy that is demanding and cautious. *)
Lemma decide_compra_regras_exemplo :
  decide_compra Exemplo.fonte (Exemplo.traco false true true false)
    100 10 300 (Exemplo.mundo 300 0 0)
  = Ret (VBool true) (Exemplo.mundo 300 0 0).
Proof.
  apply (decide_compra_regras Exemplo.fonte
           (Exemplo.traco false true true false) 100 10 300
           (Exemplo.mundo 300 0 0)).
  - reflexivity.
  - right. lia.
  - reflexivity.
  - lia.
Defined.

(** C9: the random-choice branch returns what [getrandbits(1)] returns,
    the [int] 0 or 1, which is not a [bool]; every other branch returns
    a [bool]. *)
Theorem decide_compra_aleatorio_int fonte custo aluguel saldo w :
  ∃ n, decide_compra fonte (Exemplo.traco false false false true)
         custo aluguel saldo w = Ret (VInt n) (sorteado w)
    ∧ (n = 0 ∨ n = 1)
    ∧ e_bool (VInt n) = false.
Proof.
  exists (moeda fonte w). split; [reflexivity|].
  split; [apply moeda_0_1|reflexivity].
Qed.

(** ** [Jogador.executa_jogada] *)

Local Arguments avanca : simpl never.
Local Arguments Z.add : simpl never.
Local Arguments Z.sub : simpl never.
Local Arguments Z.of_nat : simpl never.
Local Arguments Nat.modulo : simpl never.
Local Arguments Z.ltb : simpl never.
Local Arguments posicao_lista : simpl never.

(** Unfold a turn down to the store operations. *)
Ltac abre :=
  unfold executa_jogada, joga_dado, randint_1_6, sorteia, muda, le,
    propriedades_de, indice, mbind, M_bind, mret, M_ret, mthrow, M_throw;
  simpl.

Lemma fecha_saldo eu : Jogador.saldo (fecha eu) = Jogador.saldo eu.
Proof. unfold fecha. by destruct (Jogador.saldo eu <? 0). Qed.

Lemma fecha_falido eu :
  Jogador.falido (fecha eu) = Jogador.falido eu || (Jogador.saldo eu <? 0).
Proof.
  unfold fecha. destruct (Jogador.saldo eu <? 0); simpl;
    by destruct (Jogador.falido eu).
Qed.

Lemma executa_jogada_com_dono fonte self t w k propriedade o :
  posicao_lista (propriedades t)
    (Jogador.posicao_tabuleiro (pousa fonte self w) - 1) = Some k →
  propriedades t !! k = Some propriedade →
  Propriedade.dono propriedade = Some o →
  ∃ w', executa_jogada fonte self (Some t) w = Ret t w'
    ∧ objetos w' self =
        fecha (Jogador.com_saldo
                 (λ s, s - Propriedade.valor_aluguel propriedade)
                 (pousa fonte self w))
    ∧ (∀ r, r ≠ self → objetos w' r = objetos w r)
    ∧ sorteios w' = S (sorteios w).
Proof.
  intros Hk Hp Hd. abre. rewrite alter_mesmo.
  unfold pousa, dado in *. rewrite Hk. simpl. rewrite Hp. simpl.
  rewrite Hd. simpl. rewrite !alter_mesmo. unfold fecha.
  destruct t as [props]. simpl in *.
  destruct (_ <? 0); simpl; eexists; (split; [reflexivity|]);
    simpl; rewrite !alter_mesmo; (split; [reflexivity|]);
    (split; [|reflexivity]); intros r Hr; by rewrite !alter_outro.
Qed.

Lemma executa_jogada_sem_dono fonte self t w k propriedade v w2 :
  posicao_lista (propriedades t)
    (Jogador.posicao_tabuleiro (pousa fonte self w) - 1) = Some k →
  propriedades t !! k = Some propriedade →
  Propriedade.dono propriedade = None →
  decide_compra fonte (Jogador.comportamento (pousa fonte self w))
    (Propriedade.custo_venda propriedade)
    (Propriedade.valor_aluguel propriedade)
    (Jogador.saldo (pousa fonte self w)) (movido fonte self w) = Ret v w2 →
  ∃ w', executa_jogada fonte self (Some t) w =
          Ret (if verdadeiro v
               then {| propriedades :=
                         <[k := Propriedade.com_dono (Some self) propriedade]>
                           (propriedades t) |}
               else t) w'
    ∧ objetos w' self =
        fecha (if verdadeiro v
               then Jogador.com_saldo
                      (λ s, s - Propriedade.custo_venda propriedade)
                      (pousa fonte self w)
               else pousa fonte self w)
    ∧ (∀ r, r ≠ self → objetos w' r = objetos w r)
    ∧ sorteios w' = sorteios w2.
Proof.
  intros Hk Hp Hd Hv. abre. rewrite alter_mesmo.
  unfold pousa, movido, dado in *. rewrite Hk. simpl. rewrite Hp. simpl.
  rewrite Hd. simpl.
  destruct (decide_compra_Ret fonte
    (Jogador.comportamento
       (avanca (1 + Z.of_nat (fonte (sorteios w) `mod` 6)) (objetos w self)))
    (Propriedade.custo_venda propriedade)
    (Propriedade.valor_aluguel propriedade)
    (Jogador.saldo
       (avanca (1 + Z.of_nat (fonte (sorteios w) `mod` 6)) (objetos w self)))
    {| objetos := alter (avanca (1 + Z.of_nat (fonte (sorteios w) `mod` 6)))
                    self (objetos w);
       sorteios := S (sorteios w) |}) as [v' [[Hv' _]|[Hv' _]]];
    rewrite Hv' in Hv |- *; injection Hv as -> <-; simpl;
    destruct t as [props]; simpl in *; unfold fecha;
    destruct (verdadeiro v); simpl; rewrite ?alter_mesmo;
    destruct (_ <? 0); simpl; eexists;
    (split; [reflexivity|]); simpl; rewrite ?alter_mesmo;
    (split; [reflexivity|]); (split; [|reflexivity]);
    intros r Hr; by rewrite ?alter_outro.
Qed.

Lemma executa_jogada_pousa fonte self tab w t' w' :
  executa_jogada fonte self tab w = Ret t' w' →
  ∃ t k propriedade,
    tab = Some t
    ∧ posicao_lista (propriedades t)
        (Jogador.posicao_tabuleiro (pousa fonte self w) - 1) = Some k
    ∧ propriedades t !! k = Some propriedade.
Proof.
  abre. rewrite alter_mesmo. unfold pousa, dado.
  destruct tab as [t|]; simpl; [|discriminate].
  destruct (posicao_lista _ _) as [k|] eqn:Hk; simpl; [|discriminate].
  destruct (propriedades t !! k) as [p|] eqn:Hp; simpl; [|discriminate].
  intros _. by exists t, k, p.
Qed.

(** What a turn that returns has done. *)
Lemma executa_jogada_inv fonte self tab w t' w' :
  executa_jogada fonte self tab w = Ret t' w' →
  ∃ t k propriedade,
    tab = Some t
    ∧ posicao_lista (propriedades t)
        (Jogador.posicao_tabuleiro (pousa fonte self w) - 1) = Some k
    ∧ propriedades t !! k = Some propriedade
    ∧ (∀ r, r ≠ self → objetos w' r = objetos w r)
    ∧ ((∃ o, Propriedade.dono propriedade = Some o
          ∧ t' = t
          ∧ objetos w' self =
              fecha (Jogador.com_saldo
                       (λ s, s - Propriedade.valor_aluguel propriedade)
                       (pousa fonte self w)))
       ∨ (Propriedade.dono propriedade = None
          ∧ ∃ v w2,
              decide_compra fonte (Jogador.comportamento (pousa fonte self w))
                (Propriedade.custo_venda propriedade)
                (Propriedade.valor_aluguel propriedade)
                (Jogador.saldo (pousa fonte self w)) (movido fonte self w)
              = Ret v w2
              ∧ t' = (if verdadeiro v
                      then {| propriedades :=
                                <[k := Propriedade.com_dono (Some self)
                                         propriedade]> (propriedades t) |}
                      else t)
              ∧ objetos w' self =
                  fecha (if verdadeiro v
                         then Jogador.com_saldo
                                (λ s, s - Propriedade.custo_venda propriedade)
                                (pousa fonte self w)
                         else pousa fonte self w))).
Proof.
  intros H.
  destruct (executa_jogada_pousa _ _ _ _ _ _ H) as (t & k & p & -> & Hk & Hp).
  exists t, k, p. do 3 (split; [done|]).
  destruct (Propriedade.dono p) as [o|] eqn:Hd.
  - destruct (executa_jogada_com_dono _ _ _ _ _ _ _ Hk Hp Hd)
      as (w1 & H1 & Hs & Ho & _).
    rewrite H1 in H. injection H as <- <-. split; [done|].
    left. by exists o.
  - destruct (decide_compra_Ret fonte
                (Jogador.comportamento (pousa fonte self w))
                (Propriedade.custo_venda p) (Propriedade.valor_aluguel p)
                (Jogador.saldo (pousa fonte self w)) (movido fonte self w))
      as [v Hv].
    assert (∃ w2, decide_compra fonte
                (Jogador.comportamento (pousa fonte self w))
                (Propriedade.custo_venda p) (Propriedade.valor_aluguel p)
                (Jogador.saldo (pousa fonte self w)) (movido fonte self w)
              = Ret v w2) as [w2 Hv2] by (destruct Hv as [[? _]|[? _]]; eauto).
    destruct (executa_jogada_sem_dono _ _ _ _ _ _ _ _ Hk Hp Hd Hv2)
      as (w1 & H1 & Hs & Ho & _).
    rewrite H1 in H. injection H as <- <-. split; [done|].
    right. split; [done|]. by exists v, w2.
Qed.

Lemma avanca_casos r eu :
  (20 < Jogador.posicao_tabuleiro eu + r
   ∧ avanca r eu =
       Jogador.com_saldo (λ s, s + 100)
         (Jogador.com_posicao_tabuleiro (λ p, p + r - 20) eu))
  ∨ (Jogador.posicao_tabuleiro eu + r ≤ 20
     ∧ avanca r eu = Jogador.com_posicao_tabuleiro (λ p, p + r) eu).
Proof.
  unfold avanca. rewrite Z.gtb_ltb.
  destruct (Z.ltb_spec 20 (Jogador.posicao_tabuleiro eu + r)); [left|right]; done.
Qed.

Lemma avanca_falido r eu : Jogador.falido (avanca r eu) = Jogador.falido eu.
Proof. by destruct (avanca_casos r eu) as [[_ ->]|[_ ->]]. Qed.

Lemma avanca_comportamento r eu :
  Jogador.comportamento (avanca r eu) = Jogador.comportamento eu.
Proof. by destruct (avanca_casos r eu) as [[_ ->]|[_ ->]]. Qed.

Lemma fecha_posicao_tabuleiro eu :
  Jogador.posicao_tabuleiro (fecha eu) = Jogador.posicao_tabuleiro eu.
Proof. unfold fecha. by destruct (Jogador.saldo eu <? 0). Qed.

(** After a turn the player stands where the move put it, and the flag
    is set exactly by a negative balance. *)
Lemma executa_jogada_jogador fonte self tab w t' w' :
  executa_jogada fonte self tab w = Ret t' w' →
  Jogador.posicao_tabuleiro (objetos w' self)
    = Jogador.posicao_tabuleiro (pousa fonte self w)
  ∧ Jogador.falido (objetos w' self)
    = Jogador.falido (objetos w self) || (Jogador.saldo (objetos w' self) <? 0).
Proof.
  intros H.
  destruct (executa_jogada_inv _ _ _ _ _ _ H)
    as (t & k & p & _ & _ & _ & _ & [(o & _ & _ & ->)|(_ & v & w2 & _ & _ & ->)]);
    rewrite fecha_posicao_tabuleiro, fecha_falido, fecha_saldo;
    try destruct (verdadeiro v); simpl; unfold pousa; by rewrite ?avanca_falido.
Qed.

(** C4: a turn sets the bankrupt flag exactly when the balance it leaves
    is strictly negative: a negative balance always sets it, a balance
    of zero or more leaves the flag as it was, so for a player who was
    not bankrupt the flag is true after the turn iff the balance is
    below zero. *)
Theorem executa_jogada_falencia fonte self tab w t' w' :
  executa_jogada fonte self tab w = Ret t' w' →
  (Jogador.saldo (objetos w' self) < 0 →
     Jogador.falido (objetos w' self) = true)
  ∧ (0 ≤ Jogador.saldo (objetos w' self) →
     Jogador.falido (objetos w' self) = Jogador.falido (objetos w self))
  ∧ (Jogador.falido (objetos w self) = false →
     (Jogador.falido (objetos w' self) = true
      ↔ Jogador.saldo (objetos w' self) < 0)).
Proof.
  intros H. destruct (executa_jogada_jogador _ _ _ _ _ _ H) as [_ ->].
  destruct (Z.ltb_spec (Jogador.saldo (objetos w' self)) 0);
    destruct (Jogador.falido (objetos w self)); simpl;
    repeat split; intros; try done; try lia.
Qed.

(** A turn that ends on a balance of exactly zero: no bankruptcy. *)
Lemma executa_jogada_falencia_exemplo :
  ∃ t' w',
    executa_jogada Exemplo.fonte 0%nat (Some (Exemplo.tab 100 50 (Some 1%nat)))
      (Exemplo.mundo 50 0 0) = Ret t' w'
    ∧ Jogador.saldo (objetos w' 0%nat) = 0
    ∧ Jogador.falido (objetos w' 0%nat) = false.
Proof.
  eassert (H : executa_jogada Exemplo.fonte 0%nat
                 (Some (Exemplo.tab 100 50 (Some 1%nat)))
                 (Exemplo.mundo 50 0 0) = Ret _ _)
    by (vm_compute; reflexivity).
  eexists _, _. split; [exact H|].
  destruct (executa_jogada_falencia _ _ _ _ _ _ H) as (_ & H2 & _).
  split; [reflexivity|]. rewrite H2; [reflexivity|]. vm_compute. discriminate.
Defined.

(** C5: landing on an owned property debits its rent from the acting
    player whoever the owner is, the acting player included; the board
    comes back as it was and no other player is touched, so nobody is
    credited. *)
Theorem executa_jogada_aluguel fonte self t w k propriedade o :
  posicao_lista (propriedades t)
    (Jogador.posicao_tabuleiro (pousa fonte self w) - 1) = Some k →
  propriedades t !! k = Some propriedade →
  Propriedade.dono propriedade = Some o →
  ∃ w', executa_jogada fonte self (Some t) w = Ret t w'
    ∧ Jogador.saldo (objetos w' self)
      = Jogador.saldo (pousa fonte self w)
        - Propriedade.valor_aluguel propriedade
    ∧ (∀ r, r ≠ self → objetos w' r = objetos w r).
Proof.
  intros Hk Hp Hd.
  destruct (executa_jogada_com_dono _ _ _ _ _ _ _ Hk Hp Hd)
    as (w' & H & Hs & Ho & _).
  exists w'. split; [done|]. split; [|done].
  by rewrite Hs, fecha_saldo.
Qed.

(** The player lands on a property of its own and pays the rent. *)
Lemma executa_jogada_aluguel_proprio :
  let t := Exemplo.tab 100 50 (Some 0%nat) in
  ∃ w', executa_jogada Exemplo.fonte 0%nat (Some t) (Exemplo.mundo 300 0 0)
        = Ret t w'
    ∧ Jogador.saldo (objetos w' 0%nat) = 250
    ∧ (∀ r, r ≠ 0%nat → objetos w' r = Exemplo.objs 300 0 r).
Proof.
  apply (executa_jogada_aluguel Exemplo.fonte 0%nat
           (Exemplo.tab 100 50 (Some 0%nat)) (Exemplo.mundo 300 0 0)
           3%nat (Exemplo.propriedade 100 50 (Some 0%nat)) 0%nat);
    reflexivity.
Defined.

(** C6: from a slot [p] in 0..20 and a roll [r] in 1..6 the player wraps
    exactly when [p + r > 20], to slot [p + r - 20] with 100 credited;
    otherwise it goes to [p + r] with nothing credited; the new slot is
    in 1..20. The balance after the move, bonus included, is the one the
    strategy is asked with and the one the price or rent is debited
    from. *)
Theorem executa_jogada_avanca fonte self tab w t' w' p r :
  0 ≤ p ≤ 20 → 1 ≤ r ≤ 6 →
  Jogador.posicao_tabuleiro (objetos w self) = p →
  dado fonte w = r →
  executa_jogada fonte self tab w = Ret t' w' →
  (20 < p + r →
     Jogador.posicao_tabuleiro (objetos w' self) = p + r - 20
     ∧ Jogador.saldo (pousa fonte self w)
       = Jogador.saldo (objetos w self) + 100)
  ∧ (p + r ≤ 20 →
     Jogador.posicao_tabuleiro (objetos w' self) = p + r
     ∧ Jogador.saldo (pousa fonte self w) = Jogador.saldo (objetos w self))
  ∧ 1 ≤ Jogador.posicao_tabuleiro (objetos w' self) ≤ 20
  ∧ ∃ t k propriedade,
      tab = Some t
      ∧ posicao_lista (propriedades t)
          (Jogador.posicao_tabuleiro (objetos w' self) - 1) = Some k
      ∧ propriedades t !! k = Some propriedade
      ∧ match Propriedade.dono propriedade with
        | Some _ =>
            Jogador.saldo (objetos w' self)
            = Jogador.saldo (pousa fonte self w)
              - Propriedade.valor_aluguel propriedade
        | None =>
            ∃ v w2,
              decide_compra fonte (Jogador.comportamento (objetos w self))
                (Propriedade.custo_venda propriedade)
                (Propriedade.valor_aluguel propriedade)
                (Jogador.saldo (pousa fonte self w)) (movido fonte self w)
              = Ret v w2
              ∧ Jogador.saldo (objetos w' self)
                = Jogador.saldo (pousa fonte self w)
                  - (if verdadeiro v
                     then Propriedade.custo_venda propriedade else 0)
        end.
Proof.
  intros Hp Hr Hpos Hdado H.
  destruct (executa_jogada_jogador _ _ _ _ _ _ H) as [Hpos' _].
  assert (Hcasos := avanca_casos r (objetos w self)).
  unfold pousa in *. rewrite Hdado in *. rewrite Hpos in Hcasos.
  split; [|split; [|split]].
  - intros Hgt. destruct Hcasos as [[_ E]|[? _]]; [|lia].
    rewrite Hpos', E. simpl. by rewrite Hpos.
  - intros Hle. destruct Hcasos as [[? _]|[_ E]]; [lia|].
    rewrite Hpos', E. simpl. by rewrite Hpos.
  - rewrite Hpos'. destruct Hcasos as [[? ->]|[? ->]]; simpl; lia.
  - destruct (executa_jogada_inv _ _ _ _ _ _ H)
      as (t & k & pr & -> & Hk & Hl & _ & Hcaso).
    exists t, k, pr. split; [done|].
    unfold pousa in *. rewrite Hdado in *. rewrite Hpos'. split; [done|].
    split; [done|].
    destruct Hcaso as [(o & -> & _ & ->)|(-> & v & w2 & Hv & _ & ->)].
    + by rewrite fecha_saldo.
    + exists v, w2. rewrite avanca_comportamento in Hv. split; [done|].
      rewrite fecha_saldo. destruct (verdadeiro v); simpl; lia.
Qed.

(** From slot 18 a roll of 4 wraps to slot 2; the demanding player buys
    with the bonus already credited. *)
Lemma executa_jogada_avanca_exemplo :
  ∃ t' w',
    executa_jogada Exemplo.fonte 1%nat (Some (Exemplo.tab 100 50 None))
      (Exemplo.mundo 300 18 0) = Ret t' w'
    ∧ Jogador.posicao_tabuleiro (objetos w' 1%nat) = 2
    ∧ Jogador.saldo (pousa Exemplo.fonte 1%nat (Exemplo.mundo 300 18 0)) = 400
    ∧ Jogador.saldo (objetos w' 1%nat) = 300.
Proof.
  eassert (H : executa_jogada Exemplo.fonte 1%nat
                 (Some (Exemplo.tab 100 50 None))
                 (Exemplo.mundo 300 18 0) = Ret _ _)
    by (vm_compute; reflexivity).
  eexists _, _. split; [exact H|].
  destruct (executa_jogada_avanca Exemplo.fonte 1%nat _
              (Exemplo.mundo 300 18 0) _ _ 18 4
              ltac:(lia) ltac:(lia) eq_refl eq_refl H) as (Hw & _ & _ & _).
  destruct Hw as [Hp Hs]; [lia|]. split; [exact Hp|]. split; [exact Hs|].
  reflexivity.
Defined.

(** C10: a purchase approved by the cautious rule alone leaves a balance
    of at least 80, so the turn does not change the bankrupt flag. *)
Theorem executa_jogada_cauteloso fonte self t w k propriedade :
  posicao_lista (propriedades t)
    (Jogador.posicao_tabuleiro (pousa fonte self w) - 1) = Some k →
  propriedades t !! k = Some propriedade →
  Propriedade.dono propriedade = None →
  impulsivo (Jogador.comportamento (objetos w self)) = false →
  exigente (Jogador.comportamento (objetos w self)) = false →
  cauteloso (Jogador.comportamento (objetos w self)) = true →
  80 ≤ Jogador.saldo (pousa fonte self w)
       - Propriedade.custo_venda propriedade →
  ∃ t' w',
    executa_jogada fonte self (Some t) w = Ret t' w'
    ∧ propriedades t' !! k
      = Some (Propriedade.com_dono (Some self) propriedade)
    ∧ Jogador.saldo (objetos w' self)
      = Jogador.saldo (pousa fonte self w)
        - Propriedade.custo_venda propriedade
    ∧ 80 ≤ Jogador.saldo (objetos w' self)
    ∧ Jogador.falido (objetos w' self) = Jogador.falido (objetos w self).
Proof.
  intros Hk Hp Hd Hi He Hc Hs.
  assert (Hv : decide_compra fonte
                 (Jogador.comportamento (pousa fonte self w))
                 (Propriedade.custo_venda propriedade)
                 (Propriedade.valor_aluguel propriedade)
                 (Jogador.saldo (pousa fonte self w)) (movido fonte self w)
               = Ret (VBool true) (movido fonte self w)).
  { apply decide_compra_cauteloso.
    - unfold pousa. by rewrite avanca_comportamento.
    - left. unfold pousa. by rewrite avanca_comportamento.
    - unfold pousa. by rewrite avanca_comportamento.
    - done. }
  destruct (executa_jogada_sem_dono _ _ _ _ _ _ _ _ Hk Hp Hd Hv)
    as (w' & H & Hself & _ & _).
  simpl in H, Hself. eexists _, w'. split; [exact H|].
  assert (Hsaldo : Jogador.saldo (objetos w' self)
                   = Jogador.saldo (pousa fonte self w)
                     - Propriedade.custo_venda propriedade)
    by (by rewrite Hself, fecha_saldo).
  split.
  { simpl. apply list_lookup_insert_eq. by eapply lookup_lt_Some. }
  split; [done|]. split; [lia|].
  rewrite Hself, fecha_falido. simpl. unfold pousa at 1.
  rewrite avanca_falido.
  replace (_ <? 0) with false; [by destruct (Jogador.falido _)|].
  symmetry. apply Z.ltb_ge. lia.
Qed.

(** The cautious player buys a property of price 100 with 300. *)
Lemma executa_jogada_cauteloso_exemplo :
  ∃ t' w',
    executa_jogada Exemplo.fonte 2%nat (Some (Exemplo.tab 100 50 None))
      (Exemplo.mundo 300 0 0) = Ret t' w'
    ∧ propriedades t' !! 3%nat
      = Some (Exemplo.propriedade 100 50 (Some 2%nat))
    ∧ Jogador.saldo (objetos w' 2%nat) = 300 - 100
    ∧ 80 ≤ Jogador.saldo (objetos w' 2%nat)
    ∧ Jogador.falido (objetos w' 2%nat) = false.
Proof.
  apply (executa_jogada_cauteloso Exemplo.fonte 2%nat
           (Exemplo.tab 100 50 None) (Exemplo.mundo 300 0 0) 3%nat
           (Exemplo.propriedade 100 50 None));
    try reflexivity.
  vm_compute. discriminate.
Defined.

(** ** The winner loop of [Jogo.play] *)

Section Vencedor.

Variable objs : ref → Jogador.t.

Local Abbreviation saldo_de r := (Jogador.saldo (objs r)).

(** The loop entered with a running winner [v0]: it ends on [v0] when
    no later player has more, else on the first of the later players
    that beats [v0] and everyone before it, and none has more than it. *)
Lemma play_vencedor_corrente restantes v0 :
  ∃ v, play_vencedor objs restantes (Some v0) = Some v
    ∧ saldo_de v0 ≤ saldo_de v
    ∧ (∀ k x, restantes !! k = Some x → saldo_de x ≤ saldo_de v)
    ∧ (v = v0
       ∨ ∃ i, restantes !! i = Some v
           ∧ saldo_de v0 < saldo_de v
           ∧ ∀ k x, restantes !! k = Some x → (k < i)%nat →
                    saldo_de x < saldo_de v).
Proof.
  revert v0. induction restantes as [|j js IH]; intros v0; simpl.
  - exists v0. split; [done|]. split; [lia|]. split; [|by left].
    intros k x Hk. by rewrite lookup_nil in Hk.
  - rewrite Z.gtb_ltb.
    destruct (Z.ltb_spec (saldo_de v0) (saldo_de j)) as [Hlt|Hge].
    + destruct (IH j) as (v & Hv & Hj & Hall & Hcase).
      exists v. split; [done|]. split; [lia|]. split.
      { intros [|k] x Hk; simpl in Hk; [|by eapply Hall].
        injection Hk as <-. done. }
      right. destruct Hcase as [->|(i & Hi & Hlt' & Hbefore)].
      * exists 0%nat. split; [done|]. split; [done|]. intros; lia.
      * exists (S i). split; [done|]. split; [lia|].
        intros [|k] x Hk Hki; simpl in Hk.
        -- injection Hk as <-. done.
        -- eapply Hbefore; [done|lia].
    + destruct (IH v0) as (v & Hv & Hj & Hall & Hcase).
      exists v. split; [done|]. split; [done|]. split.
      { intros [|k] x Hk; simpl in Hk; [|by eapply Hall].
        injection Hk as <-. lia. }
      destruct Hcase as [->|(i & Hi & Hlt' & Hbefore)]; [by left|right].
      exists (S i). split; [done|]. split; [done|].
      intros [|k] x Hk Hki; simpl in Hk.
      * injection Hk as <-. lia.
      * eapply Hbefore; [done|lia].
Qed.

(** C1: the winner loop returns the first player, in list order, whose
    balance no player exceeds: nobody in the list has more, and everyone
    before it has strictly less. Bankrupt players take part like the
    others. *)
Theorem play_vencedor_primeiro_maior jogador restantes :
  ∃ i v,
    play_vencedor objs (jogador :: restantes) None = Some v
    ∧ (jogador :: restantes) !! i = Some v
    ∧ (∀ k x, (jogador :: restantes) !! k = Some x →
              saldo_de x ≤ saldo_de v)
    ∧ (∀ k x, (jogador :: restantes) !! k = Some x → (k < i)%nat →
              saldo_de x < saldo_de v).
Proof.
  simpl.
  destruct (play_vencedor_corrente restantes jogador)
    as (v & Hv & Hj & Hall & Hcase).
  destruct Hcase as [->|(i & Hi & Hlt & Hbefore)].
  - exists 0%nat, jogador. split; [done|]. split; [done|]. split.
    + intros [|k] x Hk; simpl in Hk; [|by eapply Hall].
      injection Hk as <-. lia.
    + intros; lia.
  - exists (S i), v. split; [done|]. split; [done|]. split.
    + intros [|k] x Hk; simpl in Hk; [|by eapply Hall].
      injection Hk as <-. done.
    + intros [|k] x Hk Hki; simpl in Hk.
      * injection Hk as <-. done.
      * eapply Hbefore; [done|lia].
Qed.

End Vencedor.

(** Four equal balances: the first player of the list wins. *)
Lemma play_vencedor_empate :
  play_vencedor (Exemplo.objs 300 0) [0; 1; 2; 3]%nat None = Some 0%nat.
Proof. reflexivity. Qed.

(** ** Everything but the [while] loop runs without fuel *)

Lemma termina_ret {A} (a : A) : termina (mret a).
Proof. intros w. discriminate. Qed.

Lemma termina_throw {A} (e : excecao) : termina (mthrow e : M A).
Proof. intros w. discriminate. Qed.

Lemma termina_bind {A B} (m : M A) (k : A → M B) :
  termina m → (∀ a, termina (k a)) → termina (m ≫= k).
Proof.
  intros Hm Hk w H. apply bind_SemFolego_inv in H as [H|(a & w1 & _ & H)].
  - by apply (Hm w).
  - by apply (Hk a w1).
Qed.

Lemma termina_le r : termina (le r).
Proof. intros w. discriminate. Qed.

Lemma termina_muda r f : termina (muda r f).
Proof. intros w. discriminate. Qed.

Lemma termina_sorteia fonte : termina (sorteia fonte).
Proof. intros w. discriminate. Qed.

Create HintDb termina.
#[local] Hint Resolve termina_ret termina_throw termina_le termina_muda
  termina_sorteia : termina.

(** Split a computation into its steps, case by case. *)
Ltac passos :=
  repeat first
    [ progress eauto with termina
    | apply termina_bind; [|intros]
    | case_match ].

Lemma termina_decide_compra fonte c custo aluguel saldo :
  termina (decide_compra fonte c custo aluguel saldo).
Proof. unfold decide_compra, getrandbits_1. passos. Qed.

Lemma termina_indice {A} (l : list A) i : termina (indice l i).
Proof. unfold indice. passos. Qed.

#[local] Hint Resolve termina_decide_compra termina_indice : termina.

Lemma termina_executa_jogada fonte self tab :
  termina (executa_jogada fonte self tab).
Proof.
  unfold executa_jogada, joga_dado, randint_1_6, propriedades_de. passos.
Qed.

Lemma termina_remove_jogador tab jogador :
  termina (remove_jogador tab jogador).
Proof. unfold remove_jogador. destruct tab; [|passos]. intros w. discriminate. Qed.

#[local] Hint Resolve termina_executa_jogada termina_remove_jogador : termina.

Lemma termina_play_corpo fonte self jogador :
  termina (play_corpo fonte self jogador).
Proof. unfold play_corpo. passos. Qed.

#[local] Hint Resolve termina_play_corpo : termina.

Lemma termina_play_for fonte restantes self :
  termina (play_for fonte self restantes).
Proof.
  revert self. induction restantes as [|j js IH]; intros self; simpl; passos.
Qed.

Lemma termina_play_rodada fonte self : termina (play_rodada fonte self).
Proof.
  unfold play_rodada, itera. pose proof (termina_play_for fonte). passos.
Qed.

(** ** The loops of [Jogo.play] *)

(** One pass through the body of the [for] loop: a bankrupt player is
    skipped; any other takes its turn, and a turn that ends in
    bankruptcy is followed at once by [remove_jogador] and the count. *)
Lemma play_corpo_inv fonte g j w g' s w' :
  play_corpo fonte g j w = Ret (g', s) w' →
  (Jogador.falido (objetos w j) = true ∧ g' = g ∧ s = Segue ∧ w' = w)
  ∨ (Jogador.falido (objetos w j) = false
     ∧ ∃ t1,
         executa_jogada fonte j (tabuleiro g) w = Ret t1 w'
         ∧ g' = (if Jogador.falido (objetos w' j)
                 then com_jogadores_falidos (jogadores_falidos g + 1)
                        (com_tabuleiro
                           (Some (remove_jogador_em (objetos w') t1 j)) g)
                 else com_tabuleiro (Some t1) g)
         ∧ s = if jogadores_falidos g' >? 2 then Para else Segue).
Proof.
  unfold play_corpo, le, remove_jogador, mbind, M_bind, mret, M_ret. simpl.
  destruct (Jogador.falido (objetos w j)) eqn:Hf.
  - intros [= <- <- <-]. by left.
  - destruct (executa_jogada fonte j (tabuleiro g) w) as [t1 w1| |] eqn:He;
      [|discriminate..].
    intros H. right. split; [done|]. exists t1.
    destruct (Jogador.falido (objetos w1 j)) eqn:Hf1; simpl in H;
      destruct (_ >? 2) eqn:Hgt in H; injection H as <- <- <-;
      rewrite ?Hf1; simpl; rewrite ?Hgt; done.
Qed.

Lemma play_corpo_contadores fonte g j w g' s w' :
  play_corpo fonte g j w = Ret (g', s) w' →
  rodada g' = rodada g
  ∧ jogadores g' = jogadores g
  ∧ jogadores_falidos g ≤ jogadores_falidos g' ≤ jogadores_falidos g + 1.
Proof.
  intros H.
  apply play_corpo_inv in H as [(_ & -> & _ & _)|(_ & t1 & _ & -> & _)].
  - repeat split; lia.
  - destruct (Jogador.falido (objetos w' j)); simpl; repeat split; lia.
Qed.

Lemma play_for_contadores fonte restantes g w g' w' :
  play_for fonte g restantes w = Ret g' w' →
  rodada g' = rodada g ∧ jogadores g' = jogadores g.
Proof.
  revert g w. induction restantes as [|j js IH]; intros g w; simpl.
  - by intros [= <- <-].
  - intros H. apply bind_Ret_inv in H as ([g1 s] & w1 & Hc & H).
    apply play_corpo_contadores in Hc as (Hr & Hj & _).
    destruct s.
    + apply IH in H as [-> ->]. done.
    + by injection H as <- <-.
Qed.

(** Each round adds exactly one to [rodada], however the [for] loop
    ended. *)
Lemma play_rodada_mais_um fonte g w g' w' :
  play_rodada fonte g w = Ret g' w' → rodada g' = rodada g + 1.
Proof.
  unfold play_rodada. intros H.
  apply bind_Ret_inv in H as (js & w1 & _ & H).
  apply bind_Ret_inv in H as (g1 & w2 & Hf & H).
  apply play_for_contadores in Hf as [Hr _].
  injection H as <- <-. simpl. lia.
Qed.

Lemma em_jogo_true g :
  em_jogo g = true ↔ rodada g < 1000 ∧ jogadores_falidos g < 3.
Proof. unfold em_jogo. rewrite andb_true_iff, !Z.ltb_lt. done. Qed.

Lemma em_jogo_false g :
  em_jogo g = false ↔ 1000 ≤ rodada g ∨ 3 ≤ jogadores_falidos g.
Proof. unfold em_jogo. rewrite andb_false_iff, !Z.ltb_ge. done. Qed.

(** The loop never needs more rounds than are left up to round 1000. *)
Lemma play_while_folego fonte n g :
  (folego_de g ≤ n)%nat → termina (play_while fonte n g).
Proof.
  unfold folego_de. revert g. induction n as [|n IH]; intros g Hn w; simpl.
  - destruct (em_jogo g) eqn:He; [|discriminate].
    apply em_jogo_true in He. lia.
  - destruct (em_jogo g) eqn:He; [|discriminate].
    apply em_jogo_true in He. intros H.
    apply bind_SemFolego_inv in H as [H|(g1 & w1 & Hr & H)].
    + by apply (termina_play_rodada fonte g w).
    + apply play_rodada_mais_um in Hr. apply (IH g1) in H; [done|lia].
Qed.

(** When the loop returns, its condition is false and it has run as
    many rounds as [rodada] has grown, at most [n]; started at or below
    round 1000 it ends at or below round 1000. *)
Lemma play_while_Ret fonte n g w g' w' :
  play_while fonte n g w = Ret g' w' →
  em_jogo g' = false
  ∧ (∃ k, (k ≤ n)%nat ∧ rodada g' = rodada g + Z.of_nat k)
  ∧ (rodada g ≤ 1000 → rodada g' ≤ 1000).
Proof.
  revert g w. induction n as [|n IH]; intros g w; simpl.
  - destruct (em_jogo g) eqn:He; [discriminate|].
    intros [= <- <-]. split; [done|]. split; [|done].
    exists 0%nat. split; lia.
  - destruct (em_jogo g) eqn:He.
    + intros H. apply bind_Ret_inv in H as (g1 & w1 & Hr & H).
      apply play_rodada_mais_um in Hr. apply em_jogo_true in He.
      apply IH in H as (Hfim & (k & Hk & Hrod) & Hlim). split; [done|].
      split; [|intros _; apply Hlim; lia].
      exists (S k). split; lia.
    + intros [= <- <-]. split; [done|]. split; [|done].
      exists 0%nat. split; lia.
Qed.

(** More fuel does not change what the loop returns. *)
Lemma play_while_mais_folego fonte n m g w g' w' :
  (n ≤ m)%nat →
  play_while fonte n g w = Ret g' w' → play_while fonte m g w = Ret g' w'.
Proof.
  revert m g w. induction n as [|n IH]; intros m g w Hm; simpl.
  - destruct (em_jogo g) eqn:He; [discriminate|].
    intros [= <- <-]. destruct m; simpl; by rewrite He.
  - destruct m as [|m]; [lia|]. simpl. destruct (em_jogo g); [|done].
    intros H. apply bind_Ret_inv in H as (g1 & w1 & Hr & H).
    unfold mbind, M_bind. rewrite Hr. apply IH; [lia|done].
Qed.

(** C2: the [while] loop always ends, within the fuel [1000 - rodada];
    each round adds exactly one to [rodada], however the [for] loop
    ended; with three bankrupt players the loop stops at once. Started
    with [rodada] in 0..1000 (it starts at 0) it runs at most 1000
    rounds and stops with its condition false and [rodada] at most
    1000. *)
Theorem play_while_termina fonte g w :
  play_while fonte (folego_de g) g w ≠ SemFolego
  ∧ (∀ g1 w1, play_rodada fonte g w = Ret g1 w1 → rodada g1 = rodada g + 1)
  ∧ (3 ≤ jogadores_falidos g → ∀ n, play_while fonte n g w = Ret g w)
  ∧ (0 ≤ rodada g ≤ 1000 →
     (folego_de g ≤ 1000)%nat
     ∧ ∀ n g' w', play_while fonte n g w = Ret g' w' →
         em_jogo g' = false
         ∧ rodada g ≤ rodada g' ≤ 1000
         ∧ rodada g' - rodada g ≤ 1000).
Proof.
  split; [by apply play_while_folego|].
  split; [apply play_rodada_mais_um|]. split.
  - intros Hf n.
    assert (em_jogo g = false) as He by (apply em_jogo_false; lia).
    destruct n; simpl; by rewrite He.
  - intros Hr. split; [unfold folego_de; lia|].
    intros n g' w' H.
    apply play_while_Ret in H as (Hfim & (k & _ & Hk) & Hlim).
    split; [done|]. specialize (Hlim ltac:(lia)). lia.
Qed.

(** The loop of the example game ends within its fuel, which is 1000. *)
Lemma play_while_termina_exemplo :
  let g := Exemplo.jogo (Exemplo.tab 100 60 None) in
  (folego_de g ≤ 1000)%nat
  ∧ play_while Exemplo.fonte (folego_de g) g (Exemplo.mundo 300 0 0)
    ≠ SemFolego.
Proof.
  destruct (play_while_termina Exemplo.fonte
              (Exemplo.jogo (Exemplo.tab 100 60 None))
              (Exemplo.mundo 300 0 0)) as (H1 & _ & _ & H2).
  destruct H2 as [H2 _]; [simpl; lia|].
  split; [exact H2|exact H1].
Defined.

(** ** Bankruptcy in the game loop *)

(** A turn changes the board at most by giving the landed-on slot to
    the acting player. *)
Lemma executa_jogada_tabuleiro fonte self tab w t' w' :
  executa_jogada fonte self tab w = Ret t' w' →
  ∃ t, tab = Some t
    ∧ ∀ p', p' ∈ propriedades t' →
            p' ∈ propriedades t ∨ Propriedade.dono p' = Some self.
Proof.
  intros H.
  destruct (executa_jogada_inv _ _ _ _ _ _ H)
    as (t & k & p & -> & _ & Hp & _ & [(o & _ & -> & _)|(_ & v & w2 & _ & -> & _)]);
    exists t; (split; [done|]); intros p' Hp'; [by left|].
  destruct (verdadeiro v); [|by left]. simpl in Hp'.
  apply list_elem_of_lookup_1 in Hp' as [i Hi].
  apply list_lookup_insert_Some in Hi as [(-> & <- & _)|[_ Hi]].
  - by right.
  - left. by eapply list_elem_of_lookup_2.
Qed.

(** [remove_jogador] leaves no slot to the player, and gives no slot to
    anyone. *)
Lemma remove_jogador_em_dono objs t jogador p' :
  p' ∈ propriedades (remove_jogador_em objs t jogador) →
  Propriedade.dono p' ≠ Some jogador
  ∧ (Propriedade.dono p' = None
     ∨ ∃ p, p ∈ propriedades t ∧ Propriedade.dono p' = Propriedade.dono p).
Proof.
  unfold remove_jogador_em. simpl. intros H.
  apply list_elem_of_fmap_1 in H as (p & -> & Hp).
  destruct (dono_igual objs (Propriedade.dono p) jogador) eqn:Hd; simpl.
  - split; [done|by left].
  - split; [|right; by exists p].
    intros Hj. rewrite Hj in Hd. simpl in Hd.
    by rewrite bool_decide_eq_false in Hd.
Qed.

Section Falencia.

Variable fonte : nat → nat.

(** The loop skips a bankrupt player: nothing changes, no draw is made. *)
Lemma play_corpo_falido g j w :
  Jogador.falido (objetos w j) = true →
  play_corpo fonte g j w = Ret (g, Segue) w.
Proof.
  intros H. unfold play_corpo, le, mbind, M_bind. simpl. by rewrite H.
Qed.

(** The body of the loop touches no player but the one it is run for. *)
Lemma play_corpo_outros g j w g' s w' r :
  play_corpo fonte g j w = Ret (g', s) w' → r ≠ j →
  objetos w' r = objetos w r.
Proof.
  intros H Hr.
  apply play_corpo_inv in H as [(_ & _ & _ & ->)|(_ & t1 & He & _)]; [done|].
  destruct (executa_jogada_inv _ _ _ _ _ _ He) as (_ & _ & _ & _ & _ & _ & Ho & _).
  by apply Ho.
Qed.

(** The body of the loop gives no slot to a player other than the one it
    is run for. *)
Lemma play_corpo_sem_posses g j w g' s w' r :
  play_corpo fonte g j w = Ret (g', s) w' → r ≠ j →
  sem_posses g r → sem_posses g' r.
Proof.
  intros H Hr Hsem.
  apply play_corpo_inv in H as [(_ & -> & _ & _)|(_ & t1 & He & -> & _)];
    [done|].
  apply executa_jogada_tabuleiro in He as (t & Ht & Hprops).
  assert (∀ p, p ∈ propriedades t1 → Propriedade.dono p ≠ Some r) as H1.
  { intros p Hp. destruct (Hprops p Hp) as [Hin| ->].
    - by eapply Hsem.
    - congruence. }
  destruct (Jogador.falido (objetos w' j)); intros t' p' [= <-] Hp'.
  - apply remove_jogador_em_dono in Hp' as [_ [-> |(p & Hp & ->)]];
      [done|by apply H1].
  - by apply H1.
Qed.

(** A turn that ends in bankruptcy leaves the player without a slot. *)
Lemma play_corpo_faliu g j w g' s w' :
  play_corpo fonte g j w = Ret (g', s) w' →
  Jogador.falido (objetos w j) = false →
  Jogador.falido (objetos w' j) = true →
  sem_posses g' j.
Proof.
  intros H Hantes Hdepois.
  apply play_corpo_inv in H as [(Hf & _)|(_ & t1 & He & -> & _)];
    [congruence|].
  rewrite Hdepois. intros t' p' [= <-] Hp'.
  by apply remove_jogador_em_dono in Hp' as [? _].
Qed.

(** A bankrupt player is frozen by every step. *)
Lemma passo_congela e e' r :
  passo fonte e e' →
  Jogador.falido (objetos e.2 r) = true →
  objetos e'.2 r = objetos e.2 r.
Proof.
  intros [g w j g' s w' H|g w] Hf; simpl in *; [|done].
  destruct (decide (r = j)) as [->|Hr].
  - rewrite (play_corpo_falido g j w Hf) in H. by injection H as <- <- <-.
  - by eapply play_corpo_outros.
Qed.

(** Every step keeps: a bankrupt player owns no slot. *)
Lemma passo_sem_posses e e' r :
  passo fonte e e' →
  (Jogador.falido (objetos e.2 r) = true → sem_posses e.1 r) →
  Jogador.falido (objetos e'.2 r) = true → sem_posses e'.1 r.
Proof.
  intros [g w j g' s w' H|g w] Hinv Hf; simpl in *; [|by apply Hinv].
  destruct (decide (r = j)) as [->|Hr].
  - destruct (Jogador.falido (objetos w j)) eqn:Hantes.
    + rewrite (play_corpo_falido g j w Hantes) in H.
      injection H as <- <- <-. by apply Hinv.
    + by eapply play_corpo_faliu.
  - eapply play_corpo_sem_posses; [done..|].
    apply Hinv. by rewrite <- (play_corpo_outros _ _ _ _ _ _ _ H Hr).
Qed.

Lemma passos_congela e e' r :
  rtc (passo fonte) e e' →
  Jogador.falido (objetos e.2 r) = true →
  objetos e'.2 r = objetos e.2 r.
Proof.
  induction 1 as [e|e e1 e' Hp _ IH]; [done|].
  intros Hf. assert (He1 := passo_congela _ _ _ Hp Hf).
  rewrite IH; [done|]. by rewrite He1.
Qed.

Lemma passos_sem_posses e e' r :
  rtc (passo fonte) e e' →
  (Jogador.falido (objetos e.2 r) = true → sem_posses e.1 r) →
  Jogador.falido (objetos e'.2 r) = true → sem_posses e'.1 r.
Proof.
  induction 1 as [e|e e1 e' Hp _ IH]; [by intros H|].
  intros Hinv. apply IH. by apply (passo_sem_posses _ _ _ Hp).
Qed.

(** The loops of [play] advance by steps. *)
Lemma play_for_passos restantes g w g' w' :
  play_for fonte g restantes w = Ret g' w' →
  rtc (passo fonte) (g, w) (g', w').
Proof.
  revert g w. induction restantes as [|j js IH]; intros g w; simpl.
  - by intros [= <- <-].
  - intros H. apply bind_Ret_inv in H as ([g1 s] & w1 & Hc & H).
    eapply rtc_l; [by eapply passo_corpo|].
    destruct s; [by apply IH|]. by injection H as <- <-.
Qed.

Lemma play_rodada_passos g w g' w' :
  play_rodada fonte g w = Ret g' w' → rtc (passo fonte) (g, w) (g', w').
Proof.
  unfold play_rodada. intros H.
  apply bind_Ret_inv in H as (js & w1 & Hi & H).
  assert (w1 = w) as -> by (unfold itera in Hi; destruct (jogadores g);
                            [by injection Hi|discriminate]).
  apply bind_Ret_inv in H as (g1 & w2 & Hf & H).
  injection H as <- <-.
  eapply rtc_r; [by eapply play_for_passos|]. apply passo_rodada.
Qed.

Lemma play_while_passos n g w g' w' :
  play_while fonte n g w = Ret g' w' → rtc (passo fonte) (g, w) (g', w').
Proof.
  revert g w. induction n as [|n IH]; intros g w; simpl.
  - destruct (em_jogo g); [discriminate|]. by intros [= <- <-].
  - destruct (em_jogo g); [|by intros [= <- <-]].
    intros H. apply bind_Ret_inv in H as (g1 & w1 & Hr & H).
    etrans; [by eapply play_rodada_passos|]. by apply IH.
Qed.

(** C7: along the steps of the game loop a bankrupt player stays
    bankrupt and is frozen: its object never changes again, because the
    loop skips it without calling [executa_jogada] (no change, no draw).
    A player that was solvent at [e0] and is bankrupt at [e1] has had
    its bankruptcy processed by the loop, and from then on no slot of
    the board has it as owner. By [play_while_passos] every run of the
    loop is such a sequence of steps. *)
Theorem falido_para_sempre e0 e1 e2 r :
  rtc (passo fonte) e0 e1 → rtc (passo fonte) e1 e2 →
  Jogador.falido (objetos e1.2 r) = true →
  objetos e2.2 r = objetos e1.2 r
  ∧ Jogador.falido (objetos e2.2 r) = true
  ∧ (∀ g, play_corpo fonte g r e2.2 = Ret (g, Segue) e2.2)
  ∧ (Jogador.falido (objetos e0.2 r) = false →
     sem_posses e1.1 r ∧ sem_posses e2.1 r).
Proof.
  intros H01 H12 Hf.
  assert (Hc := passos_congela _ _ _ H12 Hf).
  assert (Hf2 : Jogador.falido (objetos e2.2 r) = true) by by rewrite Hc.
  split; [done|]. split; [done|]. split.
  - intros g. by apply play_corpo_falido.
  - intros H0.
    assert (sem_posses e1.1 r) as H1.
    { apply (passos_sem_posses _ _ _ H01); [|done]. congruence. }
    split; [done|]. by apply (passos_sem_posses _ _ _ H12).
Qed.

End Falencia.

(** The first player pays a rent it cannot afford and goes bankrupt;
    the third player then takes its turn. *)
Lemma falido_para_sempre_exemplo :
  let e0 := (Exemplo.jogo (Exemplo.tab 100 60 (Some 0%nat)),
             Exemplo.mundo 50 0 0) in
  ∃ e1 e2,
    passo Exemplo.fonte e0 e1 ∧ passo Exemplo.fonte e1 e2
    ∧ Jogador.falido (objetos e0.2 0%nat) = false
    ∧ objetos e2.2 0%nat = objetos e1.2 0%nat
    ∧ Jogador.falido (objetos e2.2 0%nat) = true
    ∧ sem_posses e1.1 0%nat ∧ sem_posses e2.1 0%nat.
Proof.
  eassert (H1 : play_corpo Exemplo.fonte
                  (Exemplo.jogo (Exemplo.tab 100 60 (Some 0%nat))) 0%nat
                  (Exemplo.mundo 50 0 0) = Ret (_, _) _)
    by (vm_compute; reflexivity).
  match type of H1 with
  | _ = Ret (?g1, _) ?w1 =>
      eassert (H2 : play_corpo Exemplo.fonte g1 2%nat w1 = Ret (_, _) _)
        by (vm_compute; reflexivity)
  end.
  apply passo_corpo in H1, H2.
  eexists _, _. split; [exact H1|]. split; [exact H2|]. split; [reflexivity|].
  destruct (falido_para_sempre Exemplo.fonte _ _ _ 0%nat
              (rtc_once _ _ H1) (rtc_once _ _ H2) eq_refl)
    as (Ha & Hb & _ & Hc).
  split; [exact Ha|]. split; [exact Hb|]. exact (Hc eq_refl).
Defined.

(** ** The result of [Jogo.play] *)

(** The label of a player is never one of the two fixed keys. *)
Lemma retorna_comportamento_chave eu :
  retorna_comportamento eu ≠ Some "timeout"%string
  ∧ retorna_comportamento eu ≠ Some "turnos"%string.
Proof.
  unfold retorna_comportamento.
  destruct (Jogador.comportamento eu) as [[] [] [] []]; done.
Qed.

Lemma resultado_de_lookup time_out turnos eu :
  let r := resultado_de time_out turnos (retorna_comportamento eu) in
  r !! Some "timeout"%string = Some time_out
  ∧ r !! Some "turnos"%string = Some turnos
  ∧ r !! retorna_comportamento eu = Some 1
  ∧ dom r = {[ Some "timeout"%string; Some "turnos"%string;
               retorna_comportamento eu ]}.
Proof.
  destruct (retorna_comportamento_chave eu) as [H1 H2].
  unfold resultado_de. simpl. repeat split.
  - rewrite lookup_insert_ne by done. rewrite lookup_insert_ne by done.
    apply lookup_insert_eq.
  - rewrite lookup_insert_ne by done. apply lookup_insert_eq.
  - apply lookup_insert_eq.
  - rewrite !dom_insert_L, dom_empty_L. set_solver.
Qed.

(** What [play] has done when it returns. *)
Lemma play_inv fonte g w res g' w' :
  play fonte g w = Ret (res, g') w' →
  ∃ gf js v,
    play_while fonte (folego_de g) g w = Ret gf w'
    ∧ jogadores gf = Some js
    ∧ play_vencedor (objetos w') js None = Some v
    ∧ res = resultado_de
              (if (rodada gf =? 1000) && (jogadores_falidos gf <? 3)
               then 1 else 0)
              (rodada gf) (retorna_comportamento (objetos w' v))
    ∧ g' = reset gf.
Proof.
  unfold play. intros H.
  apply bind_Ret_inv in H as (gf & w1 & Hw & H).
  apply bind_Ret_inv in H as (js & w2 & Hi & H).
  assert (jogadores gf = Some js ∧ w2 = w1) as [Hjs ->]
    by (unfold itera in Hi; destruct (jogadores gf);
        [by injection Hi as -> ->|discriminate]).
  apply bind_Ret_inv in H as (v & w3 & Hv & H).
  injection Hv as <- <-.
  destruct (play_vencedor (objetos w1) js None) as [v|] eqn:Hv;
    [|discriminate].
  unfold le, mbind, M_bind, mret, M_ret in H. injection H as <- <- <-.
  by exists gf, js, v.
Qed.

(** C8: when [play] returns, the result holds exactly three keys:
    ["timeout"], which is 1 iff the loop ended with [rodada = 1000] and
    fewer than three bankrupt players and 0 otherwise; ["turnos"], the
    final [rodada]; and the label of the winner, with count 1. *)
Theorem play_resultado fonte g w res g' w' :
  play fonte g w = Ret (res, g') w' →
  ∃ gf js v time_out,
    play_while fonte (folego_de g) g w = Ret gf w'
    ∧ jogadores gf = Some js
    ∧ play_vencedor (objetos w') js None = Some v
    ∧ (time_out = 1 ↔ rodada gf = 1000 ∧ jogadores_falidos gf < 3)
    ∧ (time_out = 0 ↔ ¬ (rodada gf = 1000 ∧ jogadores_falidos gf < 3))
    ∧ res = resultado_de time_out (rodada gf)
              (retorna_comportamento (objetos w' v))
    ∧ res !! Some "timeout"%string = Some time_out
    ∧ res !! Some "turnos"%string = Some (rodada gf)
    ∧ res !! retorna_comportamento (objetos w' v) = Some 1
    ∧ dom res = {[ Some "timeout"%string; Some "turnos"%string;
                   retorna_comportamento (objetos w' v) ]}.
Proof.
  intros H. apply play_inv in H as (gf & js & v & Hw & Hjs & Hv & -> & _).
  exists gf, js, v,
    (if (rodada gf =? 1000) && (jogadores_falidos gf <? 3) then 1 else 0).
  do 3 (split; [done|]).
  split; [|split; [|split; [done|apply resultado_de_lookup]]].
  - destruct (Z.eqb_spec (rodada gf) 1000),
      (Z.ltb_spec (jogadores_falidos gf) 3); simpl; split; intros; lia.
  - destruct (Z.eqb_spec (rodada gf) 1000),
      (Z.ltb_spec (jogadores_falidos gf) 3); simpl; split; intros; lia.
Qed.

(** A game that starts at round 998 and times out two rounds later. *)
Lemma play_resultado_exemplo :
  ∃ res g' w',
    play Exemplo.fonte
      (com_rodada 998 (Exemplo.jogo (Exemplo.tab 100 10 None)))
      (Exemplo.mundo 300 0 0) = Ret (res, g') w'
    ∧ res !! Some "timeout"%string = Some 1
    ∧ res !! Some "turnos"%string = Some 1000.
Proof.
  assert (E : match play_while Exemplo.fonte 2
                      (com_rodada 998 (Exemplo.jogo (Exemplo.tab 100 10 None)))
                      (Exemplo.mundo 300 0 0) with
              | Ret g _ => Some (rodada g, jogadores_falidos g)
              | _ => None
              end = Some (1000, 0)) by (vm_compute; reflexivity).
  assert (R : match play Exemplo.fonte
                      (com_rodada 998 (Exemplo.jogo (Exemplo.tab 100 10 None)))
                      (Exemplo.mundo 300 0 0) with
              | Ret _ _ => true
              | _ => false
              end = true) by (vm_compute; reflexivity).
  destruct (play Exemplo.fonte
              (com_rodada 998 (Exemplo.jogo (Exemplo.tab 100 10 None)))
              (Exemplo.mundo 300 0 0)) as [[res g'] w'| |] eqn:H;
    [clear R|discriminate..].
  exists res, g', w'. split; [reflexivity|].
  destruct (play_resultado _ _ _ _ _ _ H)
    as (gf & js & v & t & Hw & _ & _ & Ht & _ & _ & Hto & Htu & _).
  change (folego_de _) with 2%nat in Hw. rewrite Hw in E.
  injection E as E1 E2.
  split.
  - rewrite Hto. f_equal. apply Ht. lia.
  - rewrite Htu. by f_equal.
Defined.

(** The example game ends after five rounds; the cautious player wins. *)
Lemma play_exemplo :
  match play Exemplo.fonte (Exemplo.jogo (Exemplo.tab 100 60 None))
          (Exemplo.mundo 300 0 0) with
  | Ret (res, _) _ =>
      res !! Some "timeout"%string = Some 0
      ∧ res !! Some "turnos"%string = Some 5
      ∧ res !! Some "cauteloso"%string = Some 1
  | _ => False
  end.
Proof. vm_compute. repeat split. Qed.

(** ** Exceptions of a turn *)

Lemma posicao_lista_Some {A} (l : list A) i k :
  posicao_lista l i = Some k →
  (k < length l)%nat
  ∧ (0 ≤ i ∧ k = Z.to_nat i ∨ i < 0 ∧ k = Z.to_nat (Z.of_nat (length l) + i)).
Proof.
  unfold posicao_lista.
  destruct (Z.leb_spec 0 i), (Z.ltb_spec i (Z.of_nat (length l))); simpl;
    try (intros [= <-]; split; [lia|left; lia]).
  - destruct (Z.leb_spec (- Z.of_nat (length l)) i), (Z.ltb_spec i 0);
      simpl; try discriminate. lia.
  - destruct (Z.leb_spec (- Z.of_nat (length l)) i), (Z.ltb_spec i 0);
      simpl; try discriminate. intros [= <-]. split; [lia|right; lia].
  - destruct (Z.leb_spec (- Z.of_nat (length l)) i), (Z.ltb_spec i 0);
      simpl; try discriminate. intros [= <-]. split; [lia|right; lia].
Qed.

Lemma posicao_lista_dentro {A} (l : list A) i :
  0 ≤ i < Z.of_nat (length l) → posicao_lista l i = Some (Z.to_nat i).
Proof.
  intros H. unfold posicao_lista.
  destruct (Z.leb_spec 0 i), (Z.ltb_spec i (Z.of_nat (length l))); simpl;
    done || lia.
Qed.

Lemma posicao_lista_None {A} (l : list A) i :
  posicao_lista l i = None ↔
  i < - Z.of_nat (length l) ∨ Z.of_nat (length l) ≤ i.
Proof.
  unfold posicao_lista.
  destruct (Z.leb_spec 0 i), (Z.ltb_spec i (Z.of_nat (length l))),
    (Z.leb_spec (- Z.of_nat (length l)) i), (Z.ltb_spec i 0); simpl;
    split; intros; try discriminate; try done; lia.
Qed.

(** A turn on a slot inside the board returns. *)
Lemma executa_jogada_dentro fonte self t w k :
  posicao_lista (propriedades t)
    (Jogador.posicao_tabuleiro (pousa fonte self w) - 1) = Some k →
  ∃ t' w', executa_jogada fonte self (Some t) w = Ret t' w'.
Proof.
  intros Hk. destruct (posicao_lista_Some _ _ _ Hk) as [Hlt _].
  destruct (lookup_lt_is_Some_2 _ _ Hlt) as [p Hp].
  destruct (Propriedade.dono p) as [o|] eqn:Hd.
  - destruct (executa_jogada_com_dono _ _ _ _ _ _ _ Hk Hp Hd) as (w' & H & _).
    by exists t, w'.
  - destruct (decide_compra_Ret fonte
                (Jogador.comportamento (pousa fonte self w))
                (Propriedade.custo_venda p) (Propriedade.valor_aluguel p)
                (Jogador.saldo (pousa fonte self w)) (movido fonte self w))
      as [v [[Hv _]|[Hv _]]];
      destruct (executa_jogada_sem_dono _ _ _ _ _ _ _ _ Hk Hp Hd Hv)
        as (w' & H & _); by eexists _, w'.
Qed.

(** X1: a turn raises [AttributeError] when there is no board and
    [IndexError] when the slot it lands on, minus one, is outside the
    board (an index in [-len, 0) counts from the end, as Python lists
    do); in every other case it returns, with a board of the same
    length. *)
Theorem executa_jogada_excecoes fonte self tab w :
  (tab = None → executa_jogada fonte self tab w = Levanta AttributeError)
  ∧ (∀ t, tab = Some t →
       let i := Jogador.posicao_tabuleiro (pousa fonte self w) - 1 in
       let n := Z.of_nat (length (propriedades t)) in
       (i < - n ∨ n ≤ i →
          executa_jogada fonte self tab w = Levanta IndexError)
       ∧ (- n ≤ i < n →
          ∃ t' w', executa_jogada fonte self tab w = Ret t' w'
            ∧ length (propriedades t') = length (propriedades t))).
Proof.
  split.
  - intros ->. unfold executa_jogada, joga_dado, randint_1_6, sorteia, muda,
      le, propriedades_de, mbind, M_bind, mret, M_ret. reflexivity.
  - intros t ->. split.
    + intros H. apply posicao_lista_None in H.
      unfold pousa, dado in H. abre. rewrite alter_mesmo, H. reflexivity.
    + intros H.
      destruct (posicao_lista (propriedades t)
                  (Jogador.posicao_tabuleiro (pousa fonte self w) - 1))
        as [k|] eqn:Hk; [|apply posicao_lista_None in Hk; lia].
      destruct (executa_jogada_dentro _ _ _ _ _ Hk) as (t' & w' & He).
      exists t', w'. split; [done|].
      destruct (executa_jogada_inv _ _ _ _ _ _ He)
        as (t0 & k0 & p & [= <-] & _ & _ & _
            & [(o & _ & -> & _)|(_ & v & w2 & _ & -> & _)]); [done|].
      destruct (verdadeiro v); [|done]. simpl. apply length_insert.
Qed.

(** ** What the game keeps *)

(** After a turn the player is the moved player with some balance, with
    the flag set by the last [if]. *)
Lemma executa_jogada_forma fonte self tab w t' w' :
  executa_jogada fonte self tab w = Ret t' w' →
  ∃ s', objetos w' self
        = fecha (Jogador.com_saldo (λ _, s') (pousa fonte self w)).
Proof.
  intros H.
  destruct (executa_jogada_inv _ _ _ _ _ _ H)
    as (t & k & p & _ & _ & _ & _
        & [(o & _ & _ & ->)|(_ & v & w2 & _ & _ & ->)]).
  - by eexists.
  - destruct (verdadeiro v); [by eexists|].
    exists (Jogador.saldo (pousa fonte self w)).
    by destruct (pousa fonte self w).
Qed.

Lemma fecha_nome eu : Jogador.nome (fecha eu) = Jogador.nome eu.
Proof. unfold fecha. by destruct (Jogador.saldo eu <? 0). Qed.

Lemma fecha_comportamento eu :
  Jogador.comportamento (fecha eu) = Jogador.comportamento eu.
Proof. unfold fecha. by destruct (Jogador.saldo eu <? 0). Qed.

Lemma avanca_nome r eu : Jogador.nome (avanca r eu) = Jogador.nome eu.
Proof. by destruct (avanca_casos r eu) as [[_ ->]|[_ ->]]. Qed.

Lemma avanca_posicao r eu :
  0 ≤ Jogador.posicao_tabuleiro eu ≤ 20 → 1 ≤ r ≤ 6 →
  1 ≤ Jogador.posicao_tabuleiro (avanca r eu) ≤ 20.
Proof.
  intros Hp Hr. destruct (avanca_casos r eu) as [[? ->]|[? ->]]; simpl; lia.
Qed.

(** A turn changes neither the name nor the strategy of the player,
    leaves it on a slot in 1..20 if it started in 0..20, and leaves its
    flag in step with its balance if it was so, or if it was not
    bankrupt. *)
Lemma executa_jogada_mantem fonte self tab w t' w' :
  executa_jogada fonte self tab w = Ret t' w' →
  Jogador.nome (objetos w' self) = Jogador.nome (objetos w self)
  ∧ Jogador.comportamento (objetos w' self)
    = Jogador.comportamento (objetos w self)
  ∧ (0 ≤ Jogador.posicao_tabuleiro (objetos w self) ≤ 20 →
     1 ≤ Jogador.posicao_tabuleiro (objetos w' self) ≤ 20)
  ∧ (Jogador.falido (objetos w self) = false → coerente w' self).
Proof.
  intros H. destruct (executa_jogada_forma _ _ _ _ _ _ H) as [s' Hs].
  destruct (executa_jogada_jogador _ _ _ _ _ _ H) as [Hpos Hfal].
  unfold coerente. rewrite Hfal, Hpos. rewrite Hs at 1 2.
  rewrite fecha_nome, fecha_comportamento. simpl. unfold pousa.
  rewrite avanca_nome, avanca_comportamento.
  split; [done|]. split; [done|]. split.
  - intros Hp. apply avanca_posicao; [done|apply dado_1_6].
  - intros ->. simpl. by rewrite Z.ltb_lt.
Qed.

(** A turn keeps the fixed part of the board. *)
Lemma executa_jogada_planta fonte self t w t' w' :
  executa_jogada fonte self (Some t) w = Ret t' w' → planta t' = planta t.
Proof.
  intros H.
  destruct (executa_jogada_inv _ _ _ _ _ _ H)
    as (t0 & k & p & [= <-] & _ & Hp & _
        & [(o & _ & -> & _)|(_ & v & w2 & _ & -> & _)]); [done|].
  destruct (verdadeiro v); [|done]. unfold planta. simpl.
  rewrite list_fmap_insert. simpl. apply list_insert_id.
  by rewrite list_lookup_fmap, Hp.
Qed.

Lemma remove_jogador_em_planta objs t jogador :
  planta (remove_jogador_em objs t jogador) = planta t.
Proof.
  unfold planta, remove_jogador_em. simpl. rewrite <- list_fmap_compose.
  apply list_fmap_ext. intros i p _. simpl.
  by destruct (dono_igual objs (Propriedade.dono p) jogador).
Qed.

(** A turn draws once or twice. *)
Lemma executa_jogada_sorteios fonte self tab w t' w' :
  executa_jogada fonte self tab w = Ret t' w' →
  (sorteios w < sorteios w' ≤ sorteios w + 2)%nat.
Proof.
  intros H.
  destruct (executa_jogada_pousa _ _ _ _ _ _ H) as (t & k & p & -> & Hk & Hp).
  destruct (Propriedade.dono p) as [o|] eqn:Hd.
  - destruct (executa_jogada_com_dono _ _ _ _ _ _ _ Hk Hp Hd)
      as (w1 & H1 & _ & _ & Hs).
    rewrite H1 in H. injection H as _ <-. lia.
  - destruct (decide_compra_Ret fonte
                (Jogador.comportamento (pousa fonte self w))
                (Propriedade.custo_venda p) (Propriedade.valor_aluguel p)
                (Jogador.saldo (pousa fonte self w)) (movido fonte self w))
      as [v [[Hv _]|[Hv _]]];
      destruct (executa_jogada_sem_dono _ _ _ _ _ _ _ _ Hk Hp Hd Hv)
        as (w1 & H1 & _ & _ & Hs);
      rewrite H1 in H; injection H as _ <-; simpl in Hs; lia.
Qed.

Section Mantem.

Variable fonte : nat → nat.

(** An invariant of the steps holds along the loop. *)
Lemma passos_inv (P : Jogo * Mundo → Prop) :
  (∀ e e', passo fonte e e' → P e → P e') →
  ∀ e e', rtc (passo fonte) e e' → P e → P e'.
Proof. intros Hstep e e' H. induction H; eauto. Qed.

Lemma passo_mantem e e' :
  passo fonte e e' →
  planta <$> tabuleiro e'.1 = planta <$> tabuleiro e.1
  ∧ jogadores e'.1 = jogadores e.1
  ∧ rodada e.1 ≤ rodada e'.1
  ∧ jogadores_falidos e.1 ≤ jogadores_falidos e'.1
  ∧ (sorteios e.2 ≤ sorteios e'.2)%nat
  ∧ ∀ r, Jogador.nome (objetos e'.2 r) = Jogador.nome (objetos e.2 r)
         ∧ Jogador.comportamento (objetos e'.2 r)
           = Jogador.comportamento (objetos e.2 r).
Proof.
  intros [g w j g' s w' H|g w]; simpl; [|repeat split; done || lia].
  destruct (play_corpo_contadores _ _ _ _ _ _ _ H) as (Hr & Hj & Hf).
  assert (Hout := λ r, play_corpo_outros fonte _ _ _ _ _ _ r H).
  apply play_corpo_inv in H as [(_ & -> & _ & ->)|(_ & t1 & He & -> & _)];
    [repeat split; done || lia|].
  destruct (executa_jogada_mantem _ _ _ _ _ _ He) as (Hn & Hc & _).
  assert (Hs := executa_jogada_sorteios _ _ _ _ _ _ He).
  destruct (executa_jogada_pousa _ _ _ _ _ _ He) as (t & _ & _ & Ht & _).
  rewrite Ht in He |- *. apply executa_jogada_planta in He.
  split.
  { destruct (Jogador.falido (objetos w' j)); simpl;
      by rewrite ?remove_jogador_em_planta, He. }
  split; [done|]. split; [lia|]. split; [lia|]. split; [lia|].
  intros r. destruct (decide (r = j)) as [->|Hne]; [done|].
  by rewrite Hout.
Qed.

Lemma passo_posicao e e' r :
  passo fonte e e' →
  0 ≤ Jogador.posicao_tabuleiro (objetos e.2 r) ≤ 20 →
  0 ≤ Jogador.posicao_tabuleiro (objetos e'.2 r) ≤ 20.
Proof.
  intros [g w j g' s w' H|g w]; simpl; [|done]. intros Hp.
  destruct (decide (r = j)) as [->|Hne];
    [|by rewrite (play_corpo_outros fonte _ _ _ _ _ _ _ H Hne)].
  apply play_corpo_inv in H as [(_ & _ & _ & ->)|(_ & t1 & He & _)]; [done|].
  destruct (executa_jogada_mantem _ _ _ _ _ _ He) as (_ & _ & Hpos & _).
  specialize (Hpos Hp). lia.
Qed.

Lemma passo_coerente e e' r :
  passo fonte e e' → coerente e.2 r → coerente e'.2 r.
Proof.
  intros [g w j g' s w' H|g w]; simpl; [|done]. intros Hc.
  destruct (decide (r = j)) as [->|Hne].
  - apply play_corpo_inv in H as [(_ & _ & _ & ->)|(Hf & t1 & He & _)];
      [done|].
    by apply (executa_jogada_mantem _ _ _ _ _ _ He).
  - unfold coerente. by rewrite (play_corpo_outros fonte _ _ _ _ _ _ _ H Hne).
Qed.

(** The player list and the strategies along the loop. *)
Lemma passos_jogadores e e' :
  rtc (passo fonte) e e' →
  jogadores e'.1 = jogadores e.1
  ∧ ∀ r, Jogador.comportamento (objetos e'.2 r)
         = Jogador.comportamento (objetos e.2 r).
Proof.
  intros H.
  apply (passos_inv
           (λ x, jogadores x.1 = jogadores e.1
                 ∧ ∀ r, Jogador.comportamento (objetos x.2 r)
                        = Jogador.comportamento (objetos e.2 r))
           ltac:(intros x x' Hp [Hj Hc];
                 destruct (passo_mantem _ _ Hp) as (_ & Hj' & _ & _ & _ & Hn);
                 split; [congruence|];
                 intros r; destruct (Hn r) as [_ ->]; apply Hc) e e' H).
  done.
Qed.

(** X2: the steps of the game never change the fixed part of the board
    (length, names, prices, rents), the player list, or the name and
    strategy of any player; the round, the bankruptcy count and the
    number of draws never decrease. *)
Theorem jogo_mantem e e' :
  rtc (passo fonte) e e' →
  planta <$> tabuleiro e'.1 = planta <$> tabuleiro e.1
  ∧ jogadores e'.1 = jogadores e.1
  ∧ rodada e.1 ≤ rodada e'.1
  ∧ jogadores_falidos e.1 ≤ jogadores_falidos e'.1
  ∧ (sorteios e.2 ≤ sorteios e'.2)%nat
  ∧ ∀ r, Jogador.nome (objetos e'.2 r) = Jogador.nome (objetos e.2 r)
         ∧ Jogador.comportamento (objetos e'.2 r)
           = Jogador.comportamento (objetos e.2 r).
Proof.
  induction 1 as [e|e e1 e' Hp _ IH]; [repeat split; done || lia|].
  destruct (passo_mantem _ _ Hp) as (H1 & H2 & H3 & H4 & H5 & H6).
  destruct IH as (I1 & I2 & I3 & I4 & I5 & I6).
  split; [congruence|]. split; [congruence|]. split; [lia|].
  split; [lia|]. split; [lia|]. intros r.
  destruct (I6 r) as [-> ->]. apply H6.
Qed.

(** X3: a player standing on a slot in 0..20 stays within 0..20
    whatever the game does. *)
Theorem jogo_posicoes e e' r :
  rtc (passo fonte) e e' →
  0 ≤ Jogador.posicao_tabuleiro (objetos e.2 r) ≤ 20 →
  0 ≤ Jogador.posicao_tabuleiro (objetos e'.2 r) ≤ 20.
Proof.
  apply (passos_inv
           (λ x, 0 ≤ Jogador.posicao_tabuleiro (objetos x.2 r) ≤ 20)).
  intros x x'. apply passo_posicao.
Qed.

(** X4: a player whose flag agrees with its balance (bankrupt iff the
    balance is negative) keeps that agreement whatever the game does. *)
Theorem jogo_coerente e e' r :
  rtc (passo fonte) e e' → coerente e.2 r → coerente e'.2 r.
Proof.
  apply (passos_inv (λ x, coerente x.2 r)).
  intros x x'. apply passo_coerente.
Qed.

End Mantem.

(** ** The count of bankrupt players *)

Lemma conta_falidos_limites objs js :
  0 ≤ conta_falidos objs js ≤ Z.of_nat (length js).
Proof.
  induction js as [|j js IH]; simpl; [lia|].
  destruct (Jogador.falido (objs j)); lia.
Qed.

Lemma conta_falidos_outros objs objs' js :
  (∀ j, j ∈ js → objs' j = objs j) →
  conta_falidos objs' js = conta_falidos objs js.
Proof.
  induction js as [|j js IH]; simpl; [done|]. intros H.
  rewrite (H j) by set_solver. rewrite IH; [done|].
  intros r Hr. apply H. set_solver.
Qed.

(** One player of a duplicate-free list changes: the count follows its
    flag. *)
Lemma conta_falidos_um objs objs' js j :
  NoDup js → j ∈ js → (∀ r, r ≠ j → objs' r = objs r) →
  conta_falidos objs' js
  = conta_falidos objs js
    - (if Jogador.falido (objs j) then 1 else 0)
    + (if Jogador.falido (objs' j) then 1 else 0).
Proof.
  intros Hnd Hj Hout. induction Hnd as [|x js Hx Hnd IH]; simpl.
  - by apply not_elem_of_nil in Hj.
  - destruct (decide (x = j)) as [->|Hne].
    + rewrite (conta_falidos_outros objs objs' js); [lia|].
      intros r Hr. apply Hout. intros ->. done.
    + rewrite (Hout x Hne), IH; [lia|]. set_solver.
Qed.

(** Some player of the list is solvent when fewer are bankrupt than
    listed. *)
Lemma conta_falidos_sobra objs js :
  conta_falidos objs js < Z.of_nat (length js) →
  ∃ j, j ∈ js ∧ Jogador.falido (objs j) = false.
Proof.
  induction js as [|j js IH]; simpl; [lia|].
  destruct (Jogador.falido (objs j)) eqn:Hf.
  - intros H. destruct IH as (r & Hr & Hfr); [lia|].
    exists r. split; [set_solver|done].
  - intros _. exists j. split; [set_solver|done].
Qed.

Section Contagem.

Variable fonte : nat → nat.

Lemma play_corpo_conta g j w g' s w' js :
  play_corpo fonte g j w = Ret (g', s) w' →
  NoDup js → j ∈ js →
  jogadores_falidos g = conta_falidos (objetos w) js →
  jogadores_falidos g' = conta_falidos (objetos w') js.
Proof.
  intros H Hnd Hj Hc.
  assert (Hout := λ r, play_corpo_outros fonte _ _ _ _ _ _ r H).
  apply play_corpo_inv in H as [(_ & -> & _ & ->)|(Hf & t1 & He & -> & _)];
    [done|].
  rewrite (conta_falidos_um (objetos w) (objetos w') js j Hnd Hj Hout), Hf.
  destruct (Jogador.falido (objetos w' j)); simpl; lia.
Qed.

(** The body breaks the [for] loop exactly when three are bankrupt. *)
Lemma play_corpo_sinal g j w g' s w' :
  play_corpo fonte g j w = Ret (g', s) w' →
  jogadores_falidos g ≤ 2 →
  jogadores_falidos g' ≤ 3 ∧ (s = Segue → jogadores_falidos g' ≤ 2).
Proof.
  intros H Hle.
  destruct (play_corpo_contadores _ _ _ _ _ _ _ H) as (_ & _ & Hf).
  split; [lia|].
  apply play_corpo_inv in H as [(_ & -> & _ & _)|(_ & t1 & _ & Hg & ->)];
    [done|].
  destruct (Z.gtb_spec (jogadores_falidos g') 2); [discriminate|lia].
Qed.

Lemma play_for_conta restantes g w g' w' js :
  play_for fonte g restantes w = Ret g' w' →
  NoDup js → restantes ⊆ js →
  jogadores_falidos g = conta_falidos (objetos w) js →
  jogadores_falidos g' = conta_falidos (objetos w') js.
Proof.
  revert g w. induction restantes as [|j rs IH]; intros g w; simpl.
  - by intros [= <- <-].
  - intros H Hnd Hsub Hc.
    apply bind_Ret_inv in H as ([g1 s] & w1 & Hb & H).
    assert (Hc1 := play_corpo_conta _ _ _ _ _ _ js Hb Hnd
                     ltac:(set_solver) Hc).
    destruct s; [|by injection H as <- <-].
    apply (IH g1 w1); [done..|set_solver|done].
Qed.

Lemma play_for_limite restantes g w g' w' :
  play_for fonte g restantes w = Ret g' w' →
  jogadores_falidos g ≤ 2 → jogadores_falidos g' ≤ 3.
Proof.
  revert g w. induction restantes as [|j rs IH]; intros g w; simpl.
  - intros [= <- <-]. lia.
  - intros H Hle. apply bind_Ret_inv in H as ([g1 s] & w1 & Hb & H).
    destruct (play_corpo_sinal _ _ _ _ _ _ Hb Hle) as [H3 H2].
    destruct s; [|by injection H as <- <-].
    apply (IH g1 w1); [done|]. by apply H2.
Qed.

Lemma play_for_jogadores restantes g w g' w' :
  play_for fonte g restantes w = Ret g' w' → jogadores g' = jogadores g.
Proof. intros H. by apply play_for_contadores in H as [_ ?]. Qed.

Lemma play_while_conta_falidos n g w g' w' js :
  play_while fonte n g w = Ret g' w' →
  jogadores g = Some js → NoDup js →
  jogadores_falidos g = conta_falidos (objetos w) js →
  jogadores_falidos g' = conta_falidos (objetos w') js
  ∧ (jogadores_falidos g ≤ 3 → jogadores_falidos g' ≤ 3).
Proof.
  revert g w. induction n as [|n IH]; intros g w; simpl.
  - destruct (em_jogo g); [discriminate|]. intros [= <- <-]. done.
  - destruct (em_jogo g) eqn:He; [|intros [= <- <-]; done].
    apply em_jogo_true in He as [_ He].
    intros H Hjs Hnd Hc.
    apply bind_Ret_inv in H as (g1 & w1 & Hr & H).
    unfold play_rodada in Hr. rewrite Hjs in Hr. simpl in Hr.
    apply bind_Ret_inv in Hr as (js0 & w0 & [= <- <-] & Hr).
    apply bind_Ret_inv in Hr as (g2 & w2 & Hf & [= <- <-]).
    assert (Hc2 := play_for_conta _ _ _ _ _ js Hf Hnd ltac:(done) Hc).
    assert (Hl2 := play_for_limite _ _ _ _ _ Hf ltac:(lia)).
    assert (Hj2 := play_for_jogadores _ _ _ _ _ Hf).
    destruct (IH _ _ H) as [Hfim Hlim]; [by rewrite <- Hjs|done..|].
    split; [done|]. intros _. by apply Hlim.
Qed.

(** X5: with a duplicate-free player list, when [jogadores_falidos]
    starts as the number of bankrupt players of the list it is that
    number when the loop ends; and it does not pass 3 when it starts at
    3 or less. *)
Theorem play_while_conta n g w g' w' js :
  play_while fonte n g w = Ret g' w' →
  jogadores g = Some js → NoDup js →
  jogadores_falidos g = conta_falidos (objetos w) js →
  jogadores_falidos g' = conta_falidos (objetos w') js
  ∧ 0 ≤ jogadores_falidos g' ≤ Z.of_nat (length js)
  ∧ (jogadores_falidos g ≤ 3 → jogadores_falidos g' ≤ 3).
Proof.
  intros H Hjs Hnd Hc.
  destruct (play_while_conta_falidos _ _ _ _ _ _ H Hjs Hnd Hc) as [H1 H2].
  split; [done|]. split; [|done]. rewrite H1. apply conta_falidos_limites.
Qed.

End Contagem.

(** The winner loop picks a player of the list. *)
Lemma play_vencedor_na_lista objs js v :
  play_vencedor objs js None = Some v → v ∈ js.
Proof.
  destruct js as [|j js]; simpl; [discriminate|].
  destruct (play_vencedor_corrente objs js j) as (v' & Hv & _ & _ & Hcase).
  rewrite Hv. intros [= <-].
  destruct Hcase as [->|(i & Hi & _)]; [set_solver|].
  apply list_elem_of_lookup_2 in Hi. set_solver.
Qed.

Lemma planta_length t : length (planta t) = length (propriedades t).
Proof. unfold planta. apply length_fmap. Qed.

Section Retorna.

Variable fonte : nat → nat.

(** On a board of at least 20 slots a player standing in 0..20 gets its
    pass through the body of the loop. *)
Lemma play_corpo_retorna g j w t :
  tabuleiro g = Some t → (20 ≤ length (propriedades t))%nat →
  0 ≤ Jogador.posicao_tabuleiro (objetos w j) ≤ 20 →
  ∃ g' s w', play_corpo fonte g j w = Ret (g', s) w'.
Proof.
  intros Ht Hlen Hpos.
  destruct (Jogador.falido (objetos w j)) eqn:Hf.
  { eexists _, _, _. by apply play_corpo_falido. }
  assert (1 ≤ Jogador.posicao_tabuleiro (pousa fonte j w) ≤ 20) as Hp
    by (apply avanca_posicao; [done|apply dado_1_6]).
  destruct (executa_jogada_dentro fonte j t w
              (Z.to_nat (Jogador.posicao_tabuleiro (pousa fonte j w) - 1)))
    as (t' & w' & He); [apply posicao_lista_dentro; lia|].
  unfold play_corpo, le, remove_jogador, mbind, M_bind, mret, M_ret. simpl.
  rewrite Hf, Ht, He. simpl.
  destruct (Jogador.falido (objetos w' j)); simpl; destruct (_ >? 2);
    by eexists _, _, _.
Qed.

Lemma passo_pronto e e' : passo fonte e e' → pronto e.1 e.2 → pronto e'.1 e'.2.
Proof.
  intros Hp (js & t & Hjs & Ht & Hlen & Hpos).
  destruct (passo_mantem _ _ _ Hp) as (Hpl & Hj & _).
  rewrite Ht in Hpl. simpl in Hpl.
  destruct (tabuleiro e'.1) as [t'|] eqn:Ht'; [|discriminate].
  injection Hpl as Hpl. exists js, t'. split; [congruence|]. split; [done|].
  split; [by rewrite <- planta_length, Hpl, planta_length|].
  intros j Hin. by apply (passo_posicao _ _ _ _ Hp), Hpos.
Qed.

Lemma play_for_retorna restantes g w js :
  pronto g w → jogadores g = Some js → restantes ⊆ js →
  ∃ g' w', play_for fonte g restantes w = Ret g' w'.
Proof.
  revert g w. induction restantes as [|j rs IH]; intros g w Hp Hjs Hsub;
    simpl; [by eexists _, _|].
  destruct Hp as (js' & t & Hjs' & Ht & Hlen & Hpos).
  rewrite Hjs in Hjs'. injection Hjs' as <-.
  destruct (play_corpo_retorna g j w t Ht Hlen) as (g1 & s & w1 & Hb);
    [apply Hpos; set_solver|].
  unfold mbind, M_bind. rewrite Hb.
  destruct s; [|by eexists _, _].
  apply IH; [|by rewrite (proj1 (proj2 (play_corpo_contadores _ _ _ _ _ _ _ Hb)))
             |set_solver].
  apply (passo_pronto (g, w) (g1, w1)); [by eapply passo_corpo|].
  by exists js, t.
Qed.

Lemma play_while_retorna n g w :
  (folego_de g ≤ n)%nat → pronto g w →
  ∃ g' w', play_while fonte n g w = Ret g' w'.
Proof.
  intros Hn Hp.
  destruct (play_while fonte n g w) as [g' w'|e|] eqn:H;
    [by eexists _, _| |by apply play_while_folego in H].
  exfalso. revert g w Hn Hp H. induction n as [|n IH]; intros g w Hn Hp; simpl.
  - destruct (em_jogo g); discriminate.
  - destruct (em_jogo g) eqn:He; [|discriminate].
    destruct Hp as (js & t & Hjs & Hp').
    destruct (play_for_retorna js g w js) as (g1 & w1 & Hf);
      [by exists js, t|done..|].
    unfold play_rodada, itera. rewrite Hjs.
    unfold mbind, M_bind, mret, M_ret. simpl. rewrite Hf.
    apply IH.
    + apply play_for_contadores in Hf as [Hr _]. unfold folego_de in *.
      simpl. apply em_jogo_true in He. lia.
    + assert (pronto g1 w1) as (js1 & t1 & ? & ? & ? & ?).
      { apply (passos_inv fonte (λ e, pronto e.1 e.2) passo_pronto (g, w) (g1, w1));
          [by eapply play_for_passos|by exists js, t]. }
      by exists js1, t1.
Qed.

(** A game that can be played returns: the loop ends on some game
    [gf], the winner loop finds a winner and the result is built. *)
Lemma play_pronto g w js :
  pronto g w → jogadores g = Some js → js ≠ [] →
  ∃ gf wf v,
    play_while fonte (folego_de g) g w = Ret gf wf
    ∧ play_vencedor (objetos wf) js None = Some v
    ∧ play fonte g w
      = Ret (resultado_de
               (if (rodada gf =? 1000) && (jogadores_falidos gf <? 3)
                then 1 else 0)
               (rodada gf) (retorna_comportamento (objetos wf v)),
             reset gf) wf.
Proof.
  intros Hp Hjs Hne.
  destruct (play_while_retorna (folego_de g) g w ltac:(lia) Hp)
    as (gf & wf & Hw).
  assert (jogadores gf = Some js) as Hjf.
  { assert (Hw' := Hw). apply play_while_passos in Hw'.
    apply passos_jogadores in Hw' as [Hj _]. simpl in Hj. congruence. }
  exists gf, wf.
  unfold play, itera, mbind, M_bind, mret, M_ret, le. rewrite Hw, Hjf.
  destruct js as [|j js]; [done|]. simpl.
  destruct (play_vencedor_corrente (objetos wf) js j) as (v & Hv & _).
  exists v. by rewrite Hv.
Qed.

(** A loop that starts with its condition true runs a round. *)
Lemma play_while_comeca n g w g' w' :
  play_while fonte n g w = Ret g' w' → em_jogo g = true →
  rodada g + 1 ≤ rodada g'.
Proof.
  destruct n as [|n]; simpl; intros H He; rewrite He in H; [discriminate|].
  apply bind_Ret_inv in H as (g1 & w1 & Hr & H).
  apply play_rodada_mais_um in Hr.
  apply play_while_Ret in H as (_ & (k & _ & Hk) & _). lia.
Qed.

(** X6: [play] raises nothing and returns a result on a game with at
    least one player, a board of at least 20 slots and every player on
    a slot in 0..20. *)
Theorem play_retorna g w js :
  pronto g w → jogadores g = Some js → js ≠ [] →
  ∃ res g' w', play fonte g w = Ret (res, g') w'.
Proof.
  intros Hp Hjs Hne.
  destruct (play_pronto g w js Hp Hjs Hne) as (gf & wf & v & _ & _ & H).
  by eexists _, _, _.
Qed.

(** X7: on an empty player list [play] runs its rounds and then raises
    [AttributeError], for want of a winner. *)
Theorem play_sem_jogadores g w :
  jogadores g = Some [] → play fonte g w = Levanta AttributeError.
Proof.
  intros Hjs.
  assert (∀ n g, jogadores g = Some [] → (folego_de g ≤ n)%nat →
            ∃ g', play_while fonte n g w = Ret g' w ∧ jogadores g' = Some [])
    as Hloop.
  { clear g Hjs. induction n as [|n IH]; intros g Hjs Hn; simpl.
    - destruct (em_jogo g) eqn:He; [|by exists g].
      apply em_jogo_true in He. unfold folego_de in Hn. lia.
    - destruct (em_jogo g) eqn:He; [|by exists g].
      unfold play_rodada, itera, mbind, M_bind, mret, M_ret.
      rewrite Hjs. simpl. apply IH; [done|].
      apply em_jogo_true in He. unfold folego_de in *. simpl. lia. }
  destruct (Hloop (folego_de g) g Hjs ltac:(lia)) as (g' & Hw & Hj').
  unfold play, itera, mbind, M_bind, mret, M_ret. by rewrite Hw, Hj'.
Qed.

(** X8: [play] leaves the game reset (no players, no board, counters
    at 0), and [play] on a game so reset raises [TypeError]. *)
Theorem play_duas_vezes g w res g' w' :
  play fonte g w = Ret (res, g') w' →
  jogadores g' = None ∧ tabuleiro g' = None
  ∧ rodada g' = 0 ∧ jogadores_falidos g' = 0
  ∧ ∀ w'', play fonte g' w'' = Levanta TypeError.
Proof.
  intros H. apply play_inv in H as (gf & js & v & _ & _ & _ & _ & ->).
  repeat split.
Qed.

End Retorna.

Section Vitoria.

Variable fonte : nat → nat.

(** X9: with at least four distinct players, flags that agree with the
    balances and a bankruptcy count that matches and is at most 3, the
    winner picked after the loop is a player of the list that is not
    bankrupt and has a balance of 0 or more. *)
Theorem vencedor_solvente n g w g' w' js v :
  play_while fonte n g w = Ret g' w' →
  jogadores g = Some js → NoDup js → (3 < length js)%nat →
  jogadores_falidos g = conta_falidos (objetos w) js →
  jogadores_falidos g ≤ 3 →
  (∀ j, j ∈ js → coerente w j) →
  play_vencedor (objetos w') js None = Some v →
  v ∈ js
  ∧ Jogador.falido (objetos w' v) = false
  ∧ 0 ≤ Jogador.saldo (objetos w' v).
Proof.
  intros Hw Hjs Hnd Hlen Hc Hle Hco Hv.
  destruct (play_while_conta_falidos _ _ _ _ _ _ _ Hw Hjs Hnd Hc)
    as [Hc' Hle'].
  specialize (Hle' Hle).
  assert (Hco' : ∀ j, j ∈ js → coerente w' j).
  { intros j Hj. apply play_while_passos in Hw.
    by apply (passos_inv fonte (λ x, coerente x.2 j)
                (λ x x', passo_coerente fonte x x' j) _ _ Hw), Hco. }
  destruct (conta_falidos_sobra (objetos w') js) as (j & Hj & Hfj); [lia|].
  assert (Hvin := play_vencedor_na_lista _ _ _ Hv).
  split; [done|].
  assert (0 ≤ Jogador.saldo (objetos w' j)) as Hsj.
  { destruct (Hco' j Hj) as [_ H2].
    destruct (Z.lt_ge_cases (Jogador.saldo (objetos w' j)) 0); [|done].
    rewrite H2 in Hfj; [discriminate|done]. }
  assert (Jogador.saldo (objetos w' j) ≤ Jogador.saldo (objetos w' v)) as Hmax.
  { destruct js as [|j0 js]; [discriminate|]. simpl in Hv.
    destruct (play_vencedor_corrente (objetos w') js j0)
      as (v' & Hv' & H0 & Hall & _).
    rewrite Hv' in Hv. injection Hv as ->.
    apply elem_of_cons in Hj as [->|Hj]; [done|].
    apply list_elem_of_lookup_1 in Hj as [i Hi]. by eapply Hall. }
  split; [|lia].
  destruct (Jogador.falido (objetos w' v)) eqn:Hfv; [|done].
  apply (Hco' v Hvin) in Hfv. lia.
Qed.

(** X10: the label in the result of [play] is the label of a player of
    the list, as its strategy was when [play] was called; it is Python's
    [None] exactly when that player has no trait set. *)
Theorem play_rotulo g w res g' w' js :
  play fonte g w = Ret (res, g') w' →
  jogadores g = Some js →
  ∃ v time_out turnos,
    v ∈ js
    ∧ res = resultado_de time_out turnos (retorna_comportamento (objetos w v))
    ∧ (retorna_comportamento (objetos w v) = None
       ↔ impulsivo (Jogador.comportamento (objetos w v)) = false
         ∧ exigente (Jogador.comportamento (objetos w v)) = false
         ∧ cauteloso (Jogador.comportamento (objetos w v)) = false
         ∧ aleatorio (Jogador.comportamento (objetos w v)) = false).
Proof.
  intros H Hjs.
  apply play_inv in H as (gf & js' & v & Hw & Hjs' & Hv & -> & _).
  apply play_while_passos, passos_jogadores in Hw as [Hj Hc]. simpl in *.
  assert (js' = js) as -> by congruence.
  exists v. eexists _, _. split; [by eapply play_vencedor_na_lista|].
  split.
  - unfold retorna_comportamento. rewrite Hc. reflexivity.
  - unfold retorna_comportamento.
    destruct (Jogador.comportamento (objetos w v)) as [[] [] [] []]; simpl;
      split; (done || intros (? & ? & ? & ?); done).
Qed.

End Vitoria.

(** ** [Tabuleiro.remove_jogador] *)

(** X11: [remove_jogador] leaves no slot to a player whose fields equal
    those of the given one (the given one, and any other object equal to
    it field by field), clears every such slot, keeps the slots that are
    free or owned by a different player as they are, and doing it twice
    is doing it once. *)
Theorem remove_jogador_em_limpa objs t jogador :
  (∀ p' d, p' ∈ propriedades (remove_jogador_em objs t jogador) →
           Propriedade.dono p' = Some d → objs d ≠ objs jogador)
  ∧ (∀ p d, p ∈ propriedades t → Propriedade.dono p = Some d →
            objs d = objs jogador →
            Propriedade.com_dono None p
              ∈ propriedades (remove_jogador_em objs t jogador))
  ∧ (∀ p, p ∈ propriedades t →
          (∀ d, Propriedade.dono p = Some d → objs d ≠ objs jogador) →
          p ∈ propriedades (remove_jogador_em objs t jogador))
  ∧ remove_jogador_em objs (remove_jogador_em objs t jogador) jogador
    = remove_jogador_em objs t jogador.
Proof.
  unfold remove_jogador_em. simpl. repeat split.
  - intros p' d Hp' Hd. apply list_elem_of_fmap_1 in Hp' as (p & -> & Hp).
    destruct (dono_igual objs (Propriedade.dono p) jogador) eqn:Hi;
      simpl in Hd; [discriminate|].
    rewrite Hd in Hi. simpl in Hi. by apply bool_decide_eq_false in Hi.
  - intros p d Hp Hd Heq. apply list_elem_of_fmap. exists p. split; [|done].
    rewrite Hd. simpl. by rewrite bool_decide_eq_true_2.
  - intros p Hp Hd. apply list_elem_of_fmap. exists p. split; [|done].
    destruct (Propriedade.dono p) as [d|] eqn:Hdp; simpl; [|done].
    by rewrite bool_decide_eq_false_2 by by apply Hd.
  - f_equal. rewrite <- list_fmap_compose. apply list_fmap_ext.
    intros i p _. simpl.
    destruct (dono_igual objs (Propriedade.dono p) jogador) eqn:Hi; simpl;
      [done|by rewrite Hi].
Qed.

(** ** [shuffle] and [setup_jogo] *)

Section Setup.

Variable fonte : nat → nat.

Lemma sorteados_0 w : sorteados 0 w = w.
Proof. destruct w. unfold sorteados. simpl. by rewrite Nat.add_0_r. Qed.

(** [shuffle] raises nothing, draws once per index and permutes. *)
Lemma shuffle_desde_Ret {A} (i : nat) (x : list A) w :
  (i < length x)%nat →
  ∃ x', shuffle_desde fonte i x w = Ret x' (sorteados i w) ∧ x' ≡ₚ x.
Proof.
  revert x w. induction i as [|i IH]; intros x w Hi; simpl.
  - exists x. by rewrite sorteados_0.
  - unfold mbind, M_bind, sorteia, troca. simpl.
    destruct (lookup_lt_is_Some_2 x (S i) Hi) as [xi Hxi].
    assert (fonte (sorteios w) `mod` S (S i) < length x)%nat as Hj.
    { pose proof (Nat.mod_upper_bound (fonte (sorteios w)) (S (S i))). lia. }
    destruct (lookup_lt_is_Some_2 x _ Hj) as [xj Hxj].
    rewrite Hxj, Hxi. simpl.
    destruct (IH (<[(fonte (sorteios w) `mod` S (S i))%nat := xi]>
                  (<[S i := xj]> x))
                {| objetos := objetos w; sorteios := S (sorteios w) |})
      as (x' & Hx' & Hp); [rewrite !length_insert; lia|].
    exists x'. split.
    + rewrite Hx'. unfold sorteados. simpl. do 2 f_equal. lia.
    + rewrite Hp. by apply Permutation_insert_swap.
Qed.

Lemma shuffle_Ret {A} (x : list A) w :
  ∃ x', shuffle fonte x w = Ret x' (sorteados (length x - 1) w) ∧ x' ≡ₚ x.
Proof.
  unfold shuffle. destruct x as [|a x].
  - exists []. simpl. by rewrite sorteados_0.
  - apply shuffle_desde_Ret. simpl. lia.
Qed.

Variable lista : list Dados.t.

Lemma setup_jogo_Ret livre w :
  ∃ js w',
    setup_jogo fonte lista livre w
    = Ret {| jogadores := Some js;
             tabuleiro := Some {| propriedades := nova_propriedade <$> lista |};
             rodada := 0; jogadores_falidos := 0 |} w'
    ∧ js ≡ₚ [livre; livre + 1; livre + 2; livre + 3]%nat
    ∧ recem_criados livre (objetos w')
    ∧ (∀ r, (r < livre ∨ livre + 3 < r)%nat → objetos w' r = objetos w r)
    ∧ sorteios w' = (sorteios w + 3)%nat.
Proof.
  unfold setup_jogo, novo_jogador, mbind, M_bind, mret, M_ret. simpl.
  match goal with
  | |- context [shuffle fonte ?x ?w1] =>
      destruct (shuffle_Ret x w1) as (js & Hs & Hp); rewrite Hs
  end.
  eexists js, _. split; [reflexivity|]. split; [done|]. simpl.
  split; [|split; [|done]].
  - unfold recem_criados. repeat split.
    + rewrite !fn_lookup_insert_ne by lia. by rewrite fn_lookup_insert.
    + rewrite !fn_lookup_insert_ne by lia. by rewrite fn_lookup_insert.
    + rewrite !fn_lookup_insert_ne by lia. by rewrite fn_lookup_insert.
    + by rewrite fn_lookup_insert.
  - intros r Hr. by rewrite !fn_lookup_insert_ne by lia.
Qed.

(** X12: [setup_jogo] raises nothing; it draws three times and returns a
    game at round 0 with no bankruptcy counted, one free slot per entry
    of the data set, and the four new players in some order: distinct,
    one per strategy, each with 300, on slot 0 and not bankrupt. No
    other object is touched. *)
Theorem setup_jogo_jogo livre w :
  ∃ js w',
    setup_jogo fonte lista livre w
    = Ret {| jogadores := Some js;
             tabuleiro := Some {| propriedades := nova_propriedade <$> lista |};
             rodada := 0; jogadores_falidos := 0 |} w'
    ∧ js ≡ₚ [livre; livre + 1; livre + 2; livre + 3]%nat
    ∧ NoDup js
    ∧ Jogador.comportamento <$> (objetos w' <$> js)
      ≡ₚ [Comportamento_impulsivo; Comportamento_exigente;
          Comportamento_cauteloso; Comportamento_aleatorio]
    ∧ (∀ j, j ∈ js →
         Jogador.saldo (objetos w' j) = 300
         ∧ Jogador.posicao_tabuleiro (objetos w' j) = 0
         ∧ Jogador.falido (objetos w' j) = false)
    ∧ (∀ r, (r < livre ∨ livre + 3 < r)%nat → objetos w' r = objetos w r)
    ∧ sorteios w' = (sorteios w + 3)%nat.
Proof.
  destruct (setup_jogo_Ret livre w)
    as (js & w' & H & Hp & (H1 & H2 & H3 & H4) & Hout & Hs).
  exists js, w'. split; [done|]. split; [done|]. split.
  { rewrite Hp. repeat (constructor; [set_solver by lia|]). constructor. }
  split; [rewrite Hp; simpl; by rewrite H1, H2, H3, H4|].
  split; [|done]. intros j Hj. rewrite Hp in Hj.
  repeat (apply elem_of_cons in Hj as [->|Hj]);
    [rewrite H1|rewrite H2|rewrite H3|rewrite H4|by apply elem_of_nil in Hj];
    done.
Qed.

End Setup.

Section Partida.

Variable fonte : nat → nat.
Variable lista : list Dados.t.
Hypothesis lista_20 : (20 ≤ length lista)%nat.

Lemma recem_criados_lista livre objs j js :
  recem_criados livre objs →
  js ≡ₚ [livre; livre + 1; livre + 2; livre + 3]%nat → j ∈ js →
  Jogador.posicao_tabuleiro (objs j) = 0
  ∧ Jogador.falido (objs j) = false
  ∧ Jogador.saldo (objs j) = 300
  ∧ ∃ l, l ∈ rotulos ∧ retorna_comportamento (objs j) = Some l.
Proof.
  intros (H1 & H2 & H3 & H4) Hp Hj. rewrite Hp in Hj.
  unfold rotulos, retorna_comportamento.
  repeat (apply elem_of_cons in Hj as [->|Hj]);
    [rewrite H1|rewrite H2|rewrite H3|rewrite H4|by apply elem_of_nil in Hj];
    simpl; (do 3 (split; [done|])); eexists; (split; [|reflexivity]);
    set_solver.
Qed.

(** A game fresh from [setup_jogo], played: it returns, the label is
    one of the four, and it took 1 to 1000 rounds. *)
Lemma partida_Ret livre w :
  ∃ res g' w' l time_out turnos,
    (setup_jogo fonte lista livre ≫= inicia_jogo fonte) w = Ret (res, g') w'
    ∧ l ∈ rotulos
    ∧ res = resultado_de time_out turnos (Some l)
    ∧ (time_out = 0 ∨ time_out = 1)
    ∧ 1 ≤ turnos ≤ 1000.
Proof.
  destruct (setup_jogo_Ret fonte lista livre w)
    as (js & w1 & Hs & Hp & Hnew & _ & _).
  set (g := {| jogadores := Some js;
               tabuleiro := Some {| propriedades := nova_propriedade <$> lista |};
               rodada := 0; jogadores_falidos := 0 |}) in *.
  assert (pronto g w1) as Hpronto.
  { exists js, {| propriedades := nova_propriedade <$> lista |}.
    split; [done|]. split; [done|]. split; [simpl; by rewrite length_fmap|].
    intros j Hj.
    destruct (recem_criados_lista livre (objetos w1) j js Hnew Hp Hj)
      as (-> & _). lia. }
  assert (js ≠ []) as Hne.
  { intros ->. by apply Permutation_nil_l in Hp. }
  destruct (play_pronto fonte g w1 js Hpronto eq_refl Hne)
    as (gf & wf & v & Hw & Hv & Hplay).
  assert (Hvin := play_vencedor_na_lista _ _ _ Hv).
  destruct (recem_criados_lista livre (objetos w1) v js Hnew Hp Hvin)
    as (_ & _ & _ & l & Hl & Hrot).
  assert (retorna_comportamento (objetos wf v) = Some l) as Hrot'.
  { assert (Hw' := Hw). apply play_while_passos, passos_jogadores in Hw'.
    destruct Hw' as [_ Hc]. simpl in Hc.
    unfold retorna_comportamento in *. by rewrite Hc. }
  eexists _, _, wf, l, _, (rodada gf).
  split; [|split; [done|split; [by rewrite <- Hrot'|split]]].
  - unfold mbind, M_bind, inicia_jogo. rewrite Hs. exact Hplay.
  - destruct ((rodada gf =? 1000) && (jogadores_falidos gf <? 3)); auto.
  - split.
    + by apply (play_while_comeca fonte _ _ _ _ _ Hw).
    + apply play_while_Ret in Hw as (_ & _ & Hlim). apply Hlim. simpl. lia.
Qed.

(** X13: on a data set of at least 20 properties, a game made by
    [setup_jogo] and played by [inicia_jogo] returns a result with
    exactly three keys: one of the four labels with count 1,
    ["timeout"] at 0 or 1 and ["turnos"] in 1..1000; the game is left
    reset. *)
Theorem inicia_jogo_setup_jogo livre w :
  ∃ res g' w' l time_out turnos,
    (setup_jogo fonte lista livre ≫= inicia_jogo fonte) w = Ret (res, g') w'
    ∧ l ∈ rotulos
    ∧ res !! Some l = Some 1
    ∧ res !! Some "timeout"%string = Some time_out
    ∧ res !! Some "turnos"%string = Some turnos
    ∧ dom res = {[ Some "timeout"%string; Some "turnos"%string; Some l ]}
    ∧ (time_out = 0 ∨ time_out = 1)
    ∧ 1 ≤ turnos ≤ 1000
    ∧ g' = {| jogadores := None; tabuleiro := None; rodada := 0;
              jogadores_falidos := 0 |}.
Proof.
  destruct (setup_jogo_Ret fonte lista livre w) as (js & w1 & Hs & _).
  destruct (partida_Ret livre w)
    as (res & g' & w' & l & t & u & H & Hl & -> & Ht & Hu).
  exists (resultado_de t u (Some l)), g', w', l, t, u.
  split; [done|]. split; [done|].
  assert (Some l ≠ Some "timeout"%string ∧ Some l ≠ Some "turnos"%string)
    as [H1 H2].
  { unfold rotulos in Hl.
    repeat (apply elem_of_cons in Hl as [->|Hl]);
      [done..|by apply elem_of_nil in Hl]. }
  unfold resultado_de.
  split; [apply lookup_insert_eq|].
  split; [rewrite lookup_insert_ne by done; rewrite lookup_insert_ne by done;
          apply lookup_insert_eq|].
  split; [rewrite lookup_insert_ne by done; apply lookup_insert_eq|].
  split; [rewrite !dom_insert_L, dom_empty_L; set_solver|].
  split; [done|]. split; [done|].
  unfold mbind, M_bind, inicia_jogo in H. rewrite Hs in H.
  by apply play_inv in H as (gf & _ & _ & _ & _ & _ & _ & ->).
Qed.

(** *** The totals of [__main__] *)

Lemma contagem_Counter_iadd c r k :
  0 ≤ contagem c k → 0 ≤ contagem r k →
  contagem (Counter_iadd c r) k = contagem c k + contagem r k.
Proof.
  unfold contagem, Counter_iadd.
  rewrite map_lookup_filter, lookup_union_with.
  destruct (c !! k) as [a|], (r !! k) as [b|]; simpl; intros Ha Hb;
    try case_guard; simpl in *; lia.
Qed.

Lemma dom_Counter_iadd c r : dom (Counter_iadd c r) ⊆ dom c ∪ dom r.
Proof.
  unfold Counter_iadd. intros k Hk. apply elem_of_dom in Hk as [x Hx].
  apply map_lookup_filter_Some in Hx as [Hx _].
  apply lookup_union_with_Some in Hx as [[Hx _]|[[_ Hx]|(a & b & Hx & _)]];
    apply elem_of_union; [left|right|left]; apply elem_of_dom; eauto.
Qed.

(** Look a fixed key up in a map built by inserting fixed keys. *)
Ltac procura :=
  repeat first
    [ rewrite lookup_insert_eq
    | rewrite lookup_insert_ne by discriminate
    | rewrite lookup_empty ]; simpl.

(** The counts of one result. *)
Lemma contagem_resultado_de time_out turnos l :
  l ∈ rotulos →
  let r := resultado_de time_out turnos (Some l) in
  contagem r (Some "timeout"%string) = time_out
  ∧ contagem r (Some "turnos"%string) = turnos
  ∧ contagem r (Some "impulsivo"%string) + contagem r (Some "exigente"%string)
    + contagem r (Some "cauteloso"%string)
    + contagem r (Some "aleatorio"%string) = 1
  ∧ (0 ≤ time_out → 0 ≤ turnos → ∀ k, 0 ≤ contagem r k)
  ∧ dom r ⊆ {[ Some "timeout"; Some "turnos"; Some "impulsivo";
               Some "exigente"; Some "cauteloso"; Some "aleatorio" ]}%string.
Proof.
  intros Hl. unfold rotulos in Hl. simpl.
  repeat (apply elem_of_cons in Hl as [->|Hl]);
    [..|by apply elem_of_nil in Hl];
    unfold contagem, resultado_de;
    (split; [by procura|]); (split; [by procura|]); (split; [by procura|]);
    (split;
     [intros Ht Hu k; rewrite !lookup_insert, lookup_empty;
      repeat case_decide; simpl; lia
     |rewrite !dom_insert_L, dom_empty_L; set_solver]).
Qed.

Lemma parcial_inicial : parcial resultado_final 0.
Proof.
  unfold parcial. split; [|split; [|by vm_compute]].
  - intros k. unfold contagem, resultado_final.
    rewrite !lookup_insert, lookup_empty. repeat case_decide; simpl; lia.
  - unfold resultado_final, chaves.
    rewrite !dom_insert_L, dom_empty_L. set_solver.
Qed.

Lemma parcial_Counter_iadd c m time_out turnos l :
  parcial c m → l ∈ rotulos → time_out = 0 ∨ time_out = 1 →
  1 ≤ turnos ≤ 1000 →
  parcial (Counter_iadd c (resultado_de time_out turnos (Some l))) (m + 1).
Proof.
  intros (Hpos & Hdom & Hsum & Hto & Htu) Hl Ht Hu.
  destruct (contagem_resultado_de time_out turnos l Hl)
    as (Hr1 & Hr2 & Hr3 & Hr & Hrdom).
  specialize (Hr ltac:(lia) ltac:(lia)).
  unfold parcial.
  split; [intros k; rewrite contagem_Counter_iadd by done;
          specialize (Hpos k); specialize (Hr k); lia|].
  split.
  { etrans; [apply dom_Counter_iadd|]. by apply union_least. }
  rewrite !contagem_Counter_iadd by done. lia.
Qed.

Lemma principal_jogos_Ret n livre c m w :
  parcial c m →
  ∃ c' w', principal_jogos fonte lista n livre c w = Ret c' w'
           ∧ parcial c' (m + Z.of_nat n).
Proof.
  revert livre c m w. induction n as [|n IH]; intros livre c m w Hc; simpl.
  - exists c, w. split; [done|]. by rewrite Z.add_0_r.
  - destruct (partida_Ret livre w)
      as (res & g' & w1 & l & t & u & Hp & Hl & -> & Ht & Hu).
    unfold mbind, M_bind in Hp |- *.
    destruct (setup_jogo fonte lista livre w) as [g0 w0| |]; [|done..].
    rewrite Hp.
    destruct (IH (livre + 4)%nat
                (Counter_iadd c (resultado_de t u (Some l))) (m + 1) w1)
      as (c' & w' & Hj & Hc'); [by apply parcial_Counter_iadd|].
    exists c', w'. split; [done|].
    by replace (m + Z.of_nat (S n)) with (m + 1 + Z.of_nat n) by lia.
Qed.

(** X14: on a data set of at least 20 properties the batch of
    [__main__] raises nothing; its totals hold exactly the six keys,
    the four win counts are non-negative and add up to the number of
    games, the timeouts are at most that number and the rounds lie
    between it and 1000 times it. *)
Theorem principal_totais n livre w :
  ∃ totais w' impulsivos exigentes cautelosos aleatorios time_outs turnos,
    principal fonte lista n livre w = Ret totais w'
    ∧ dom totais = chaves
    ∧ totais !! Some "impulsivo"%string = Some impulsivos
    ∧ totais !! Some "exigente"%string = Some exigentes
    ∧ totais !! Some "cauteloso"%string = Some cautelosos
    ∧ totais !! Some "aleatorio"%string = Some aleatorios
    ∧ totais !! Some "timeout"%string = Some time_outs
    ∧ totais !! Some "turnos"%string = Some turnos
    ∧ 0 ≤ impulsivos ∧ 0 ≤ exigentes ∧ 0 ≤ cautelosos ∧ 0 ≤ aleatorios
    ∧ impulsivos + exigentes + cautelosos + aleatorios = Z.of_nat n
    ∧ 0 ≤ time_outs ≤ Z.of_nat n
    ∧ Z.of_nat n ≤ turnos ≤ 1000 * Z.of_nat n.
Proof.
  destruct (principal_jogos_Ret n livre resultado_final 0 w parcial_inicial)
    as (c & w' & Hj & Hpos & Hdom & Hsum & Hto & Htu).
  assert (∀ k, k ∈ chaves → (c ∪ resultado_final) !! k = Some (contagem c k))
    as Hk.
  { intros k Hin. unfold contagem. rewrite lookup_union.
    destruct (c !! k) as [x|]; simpl; [by destruct (resultado_final !! k)|].
    unfold chaves in Hin. unfold resultado_final.
    rewrite !lookup_insert, lookup_empty.
    repeat case_decide; simpl; try done. set_solver. }
  exists (c ∪ resultado_final), w'.
  eexists _, _, _, _, _, _.
  split; [unfold principal, mbind, M_bind, mret, M_ret; by rewrite Hj|].
  split.
  { rewrite dom_union_L. unfold resultado_final at 1.
    rewrite !dom_insert_L, dom_empty_L. unfold chaves in *. set_solver. }
  do 6 (split; [apply Hk; unfold chaves; set_solver|]).
  repeat split; try apply Hpos; lia.
Qed.

End Partida.

(** ** The properties above on the example game *)

(** A board of three slots: the first roll, 4, lands outside it. *)
Lemma executa_jogada_excecoes_exemplo :
  executa_jogada Exemplo.fonte 0%nat
    (Some {| propriedades := replicate 3 (Exemplo.propriedade 100 50 None) |})
    (Exemplo.mundo 300 0 0)
  = Levanta IndexError.
Proof.
  destruct (executa_jogada_excecoes Exemplo.fonte 0%nat
              (Some {| propriedades :=
                         replicate 3 (Exemplo.propriedade 100 50 None) |})
              (Exemplo.mundo 300 0 0)) as [_ H].
  destruct (H _ eq_refl) as [H1 _]. apply H1. right. vm_compute. discriminate.
Defined.

(** The first pass of the example game. *)
Lemma jogo_mantem_exemplo :
  let e0 := (Exemplo.jogo (Exemplo.tab 100 60 None), Exemplo.mundo 300 0 0) in
  ∃ e1,
    passo Exemplo.fonte e0 e1
    ∧ planta <$> tabuleiro e1.1 = planta <$> tabuleiro e0.1
    ∧ jogadores e1.1 = jogadores e0.1
    ∧ Jogador.nome (objetos e1.2 0%nat) = "Jogador1"%string.
Proof.
  eassert (H1 : play_corpo Exemplo.fonte
                  (Exemplo.jogo (Exemplo.tab 100 60 None)) 0%nat
                  (Exemplo.mundo 300 0 0) = Ret (_, _) _)
    by (vm_compute; reflexivity).
  apply passo_corpo in H1. eexists. split; [exact H1|].
  destruct (jogo_mantem Exemplo.fonte _ _ (rtc_once _ _ H1))
    as (Ha & Hb & _ & _ & _ & Hn).
  split; [exact Ha|]. split; [exact Hb|]. exact (proj1 (Hn 0%nat)).
Defined.

Lemma jogo_posicoes_exemplo :
  let e0 := (Exemplo.jogo (Exemplo.tab 100 60 None), Exemplo.mundo 300 20 0) in
  ∃ e1,
    passo Exemplo.fonte e0 e1
    ∧ 0 ≤ Jogador.posicao_tabuleiro (objetos e1.2 0%nat) ≤ 20.
Proof.
  eassert (H1 : play_corpo Exemplo.fonte
                  (Exemplo.jogo (Exemplo.tab 100 60 None)) 0%nat
                  (Exemplo.mundo 300 20 0) = Ret (_, _) _)
    by (vm_compute; reflexivity).
  apply passo_corpo in H1. eexists. split; [exact H1|].
  apply (jogo_posicoes Exemplo.fonte _ _ 0%nat (rtc_once _ _ H1)).
  simpl. lia.
Defined.

Lemma jogo_coerente_exemplo :
  let e0 := (Exemplo.jogo (Exemplo.tab 100 60 (Some 1%nat)),
             Exemplo.mundo 50 0 0) in
  ∃ e1,
    passo Exemplo.fonte e0 e1
    ∧ Jogador.falido (objetos e1.2 0%nat) = true
    ∧ coerente e1.2 0%nat.
Proof.
  eassert (H1 : play_corpo Exemplo.fonte
                  (Exemplo.jogo (Exemplo.tab 100 60 (Some 1%nat))) 0%nat
                  (Exemplo.mundo 50 0 0) = Ret (_, _) _)
    by (vm_compute; reflexivity).
  apply passo_corpo in H1. eexists. split; [exact H1|].
  split; [reflexivity|].
  apply (jogo_coerente Exemplo.fonte _ _ 0%nat (rtc_once _ _ H1)).
  split; simpl; [discriminate|lia].
Defined.

Lemma NoDup_exemplo : NoDup [0; 1; 2; 3]%nat.
Proof. by apply (bool_decide_unpack _). Qed.

(** The example game from round 998 on: two rounds. *)
Lemma play_while_998 :
  ∃ g' w',
    play_while Exemplo.fonte 2
      (com_rodada 998 (Exemplo.jogo (Exemplo.tab 100 60 None)))
      (Exemplo.mundo 300 0 0) = Ret g' w'.
Proof.
  assert (R : match play_while Exemplo.fonte 2
                      (com_rodada 998 (Exemplo.jogo (Exemplo.tab 100 60 None)))
                      (Exemplo.mundo 300 0 0) with
              | Ret _ _ => true
              | _ => false
              end = true) by (vm_compute; reflexivity).
  destruct (play_while Exemplo.fonte 2
              (com_rodada 998 (Exemplo.jogo (Exemplo.tab 100 60 None)))
              (Exemplo.mundo 300 0 0)) as [g' w'| |] eqn:H;
    [clear R|discriminate..].
  by exists g', w'.
Qed.

Lemma play_while_conta_exemplo :
  ∃ g' w',
    play_while Exemplo.fonte 2
      (com_rodada 998 (Exemplo.jogo (Exemplo.tab 100 60 None)))
      (Exemplo.mundo 300 0 0) = Ret g' w'
    ∧ jogadores_falidos g' = conta_falidos (objetos w') [0; 1; 2; 3]%nat
    ∧ jogadores_falidos g' ≤ 3.
Proof.
  destruct play_while_998 as (g' & w' & H).
  exists g', w'. split; [exact H|].
  destruct (play_while_conta Exemplo.fonte _ _ _ _ _ [0; 1; 2; 3]%nat H)
    as (H1 & _ & H3); [reflexivity|apply NoDup_exemplo|reflexivity|].
  split; [exact H1|]. apply H3. simpl. lia.
Defined.

Lemma pronto_exemplo t s p n :
  (20 ≤ length (propriedades t))%nat → 0 ≤ p ≤ 20 →
  pronto (Exemplo.jogo t) (Exemplo.mundo s p n).
Proof.
  intros Ht Hp. exists [0; 1; 2; 3]%nat, t. do 3 (split; [done|]).
  intros j _. by destruct j as [|[|[|]]].
Qed.

Lemma play_retorna_exemplo :
  ∃ res g' w',
    play Exemplo.fonte (Exemplo.jogo (Exemplo.tab 100 60 None))
      (Exemplo.mundo 300 0 0) = Ret (res, g') w'.
Proof.
  apply (play_retorna Exemplo.fonte _ _ [0; 1; 2; 3]%nat);
    [apply pronto_exemplo; simpl; lia|reflexivity|discriminate].
Defined.

(** The example game from round 998 on returns. *)
Lemma play_998 :
  ∃ res g' w',
    play Exemplo.fonte
      (com_rodada 998 (Exemplo.jogo (Exemplo.tab 100 60 None)))
      (Exemplo.mundo 300 0 0) = Ret (res, g') w'.
Proof.
  destruct (play_pronto Exemplo.fonte
              (com_rodada 998 (Exemplo.jogo (Exemplo.tab 100 60 None)))
              (Exemplo.mundo 300 0 0) [0; 1; 2; 3]%nat)
    as (gf & wf & v & _ & _ & H); [|reflexivity|discriminate|by eexists _, _, _].
  destruct (pronto_exemplo (Exemplo.tab 100 60 None) 300 0 0)
    as (js & t & ? & ? & ? & ?); [simpl; lia..|].
  by exists js, t.
Qed.

Lemma play_sem_jogadores_exemplo :
  play Exemplo.fonte
    {| jogadores := Some []; tabuleiro := Some (Exemplo.tab 100 60 None);
       rodada := 0; jogadores_falidos := 0 |}
    (Exemplo.mundo 300 0 0)
  = Levanta AttributeError.
Proof. apply play_sem_jogadores. reflexivity. Defined.

Lemma play_duas_vezes_exemplo :
  let g := com_rodada 998 (Exemplo.jogo (Exemplo.tab 100 60 None)) in
  ∃ res g' w',
    play Exemplo.fonte g (Exemplo.mundo 300 0 0) = Ret (res, g') w'
    ∧ jogadores g' = None
    ∧ play Exemplo.fonte g' w' = Levanta TypeError.
Proof.
  destruct play_998 as (res & g' & w' & H).
  exists res, g', w'. split; [exact H|].
  destruct (play_duas_vezes Exemplo.fonte _ _ _ _ _ H) as (H1 & _ & _ & _ & H5).
  split; [exact H1|apply H5].
Defined.

Lemma coerente_exemplo s p n j : 0 ≤ s → coerente (Exemplo.mundo s p n) j.
Proof.
  intros Hs. unfold coerente.
  destruct j as [|[|[|]]]; simpl; split; (discriminate || lia).
Qed.

Lemma vencedor_solvente_exemplo :
  ∃ g' w' v,
    play_while Exemplo.fonte 2
      (com_rodada 998 (Exemplo.jogo (Exemplo.tab 100 60 None)))
      (Exemplo.mundo 300 0 0) = Ret g' w'
    ∧ play_vencedor (objetos w') [0; 1; 2; 3]%nat None = Some v
    ∧ Jogador.falido (objetos w' v) = false
    ∧ 0 ≤ Jogador.saldo (objetos w' v).
Proof.
  destruct play_while_998 as (g' & w' & H).
  destruct (play_vencedor_corrente (objetos w') [1; 2; 3]%nat 0%nat)
    as (v & Hv & _).
  exists g', w', v. split; [exact H|]. split; [exact Hv|].
  apply (vencedor_solvente Exemplo.fonte _ _ _ _ _ [0; 1; 2; 3]%nat v H);
    [reflexivity|apply NoDup_exemplo|simpl; lia|reflexivity|simpl; lia|
     |exact Hv].
  intros j _. apply coerente_exemplo. lia.
Defined.

Lemma play_rotulo_exemplo :
  ∃ res g' w' v time_out turnos,
    play Exemplo.fonte
      (com_rodada 998 (Exemplo.jogo (Exemplo.tab 100 60 None)))
      (Exemplo.mundo 300 0 0) = Ret (res, g') w'
    ∧ v ∈ [0; 1; 2; 3]%nat
    ∧ res = resultado_de time_out turnos
              (retorna_comportamento (Exemplo.objs 300 0 v)).
Proof.
  destruct play_998 as (res & g' & w' & H).
  destruct (play_rotulo Exemplo.fonte _ _ _ _ _ [0; 1; 2; 3]%nat H eq_refl)
    as (v & t & u & Hv & Hres & _).
  exists res, g', w', v, t, u.
  split; [exact H|]. split; [exact Hv|exact Hres].
Defined.

(** The addresses 3 and 4 hold players with equal fields: removing the
    one clears the slots of the other. *)
Lemma remove_jogador_em_limpa_exemplo :
  Exemplo.propriedade 100 50 None
    ∈ propriedades
        (remove_jogador_em (Exemplo.objs 300 0)
           (Exemplo.tab 100 50 (Some 4%nat)) 3%nat).
Proof.
  destruct (remove_jogador_em_limpa (Exemplo.objs 300 0)
              (Exemplo.tab 100 50 (Some 4%nat)) 3%nat) as (_ & H & _).
  apply (H (Exemplo.propriedade 100 50 (Some 4%nat)) 4%nat);
    [left|reflexivity|reflexivity].
Defined.

Lemma inicia_jogo_setup_jogo_exemplo :
  ∃ res g' w' l time_out turnos,
    (setup_jogo Exemplo.fonte ExemploDados.lista 0%nat
       ≫= inicia_jogo Exemplo.fonte) (Exemplo.mundo 0 0 0) = Ret (res, g') w'
    ∧ l ∈ rotulos
    ∧ res !! Some l = Some 1
    ∧ res !! Some "timeout"%string = Some time_out
    ∧ res !! Some "turnos"%string = Some turnos
    ∧ dom res = {[ Some "timeout"%string; Some "turnos"%string; Some l ]}
    ∧ (time_out = 0 ∨ time_out = 1)
    ∧ 1 ≤ turnos ≤ 1000
    ∧ g' = {| jogadores := None; tabuleiro := None; rodada := 0;
              jogadores_falidos := 0 |}.
Proof.
  apply (inicia_jogo_setup_jogo Exemplo.fonte ExemploDados.lista).
  simpl. lia.
Defined.

(** The 300 games of the script. *)
Lemma principal_totais_exemplo :
  ∃ totais w' impulsivos exigentes cautelosos aleatorios time_outs turnos,
    principal Exemplo.fonte ExemploDados.lista 300 0%nat
      (Exemplo.mundo 0 0 0)
    = Ret totais w'
    ∧ dom totais = chaves
    ∧ totais !! Some "impulsivo"%string = Some impulsivos
    ∧ totais !! Some "exigente"%string = Some exigentes
    ∧ totais !! Some "cauteloso"%string = Some cautelosos
    ∧ totais !! Some "aleatorio"%string = Some aleatorios
    ∧ totais !! Some "timeout"%string = Some time_outs
    ∧ totais !! Some "turnos"%string = Some turnos
    ∧ 0 ≤ impulsivos ∧ 0 ≤ exigentes ∧ 0 ≤ cautelosos ∧ 0 ≤ aleatorios
    ∧ impulsivos + exigentes + cautelosos + aleatorios = 300
    ∧ 0 ≤ time_outs ≤ 300
    ∧ 300 ≤ turnos ≤ 300000.
Proof.
  apply (principal_totais Exemplo.fonte ExemploDados.lista
           ltac:(simpl; lia) 300 0%nat (Exemplo.mundo 0 0 0)).
Defined.
